(** * The snake game core: state initialiser, direction mutator, tick stepper
      and food placement, embedded from [packages/game-core] (TypeScript).

    Numbers.  The core only ever adds or subtracts one from a coordinate,
    takes a remainder by a board dimension, adds ten to the score and one
    to the tick.  Starting from integer inputs these operations stay inside
    the integers, except that [n % 0] is [NaN]; integers together with
    [NaN] are closed under everything the core computes.  Coordinates are
    therefore modelled by [jsnum] (an integer or [NaN]) and the remaining
    numbers (board dimensions, initial length, score, tick) by [Z].  The
    negative zero that [%] can produce is identified with zero: the core
    cannot tell them apart ([===], [<], [>=], [+ 1], [- 1] and the decimal
    rendering all agree on both).

    Limits of the engine.  The sums [score + 10] and [tick + 1] are
    rounded the way sums of doubles are ([round_double]): they are exact up
    to 2^53 and keep 53 leading bits beyond.  [Array.from] refuses a length
    of 2^32 or more with a [RangeError], and [createInitialState] with it.
    Coordinate arithmetic is exact integer arithmetic, as it is for every
    cell below 2^53.

    Randomness.  [spawnFood] reads the ambient generator [Math.random()].
    The value it would return is passed to the model explicitly as a
    [random]: a fraction in the half-open unit interval. *)

From Stdlib Require Import ZArith List Bool Lia.
From Stdlib Require Import Strings.String Strings.Ascii.
From Stdlib Require Import Numbers.DecimalString Numbers.DecimalZ.
From stdpp Require Import base decidable option list list_numbers strings gmap sets sorting.

Local Open Scope Z_scope.

(** ** JavaScript numbers that the core can meet *)

Inductive jsnum : Type :=
| NaN
| Num (z : Z).

#[global] Instance jsnum_eq_dec : EqDecision jsnum.
Proof. solve_decision. Defined.

(** [a === b] on numbers: [NaN] is not equal to anything, itself included. *)
Definition js_eq (a b : jsnum) : bool :=
  match a, b with
  | Num u, Num v => u =? v
  | _, _ => false
  end.

(** [a + k] with an integer [k]. *)
Definition js_add (a : jsnum) (k : Z) : jsnum :=
  match a with
  | NaN => NaN
  | Num u => Num (u + k)
  end.

(** [a % k]: the remainder takes the sign of the dividend, and is [NaN]
    when the divisor is zero. *)
Definition js_rem (a : jsnum) (k : Z) : jsnum :=
  match a with
  | NaN => NaN
  | Num u => if k =? 0 then NaN else Num (Z.rem u k)
  end.

(** [a < k] and [a >= k]: every comparison with [NaN] is false. *)
Definition js_lt (a : jsnum) (k : Z) : bool :=
  match a with
  | NaN => false
  | Num u => u <? k
  end.

Definition js_ge (a : jsnum) (k : Z) : bool :=
  match a with
  | NaN => false
  | Num u => k <=? u
  end.

(** The rendering of a number inside a template literal. *)
Definition toString (a : jsnum) : string :=
  match a with
  | NaN => "NaN"
  | Num u => NilEmpty.string_of_int (Z.to_int u)
  end.

(** The double nearest to the integer [z], ties going to the even
    significand: the value of a sum of doubles whose exact result is [z].
    Integers up to 2^53 in magnitude are doubles; a larger one keeps its 53
    leading bits.  (A sum of a double and 1 or 10 never overflows.) *)
Definition round_double (z : Z) : Z :=
  let m := Z.abs z in
  if m <? 2 ^ 53 then z
  else
    let ulp := 2 ^ (Z.log2 m - 52) in
    let q := m / ulp in
    let rest := m mod ulp in
    let q' := if 2 * rest <? ulp then q
              else if ulp <? 2 * rest then q + 1
              else if Z.even q then q else q + 1 in
    Z.sgn z * (q' * ulp).

#[global] Arguments round_double : simpl never.

(** ** types.ts *)

Module Point.
Record t : Type := mk { x : jsnum; y : jsnum }.
End Point.

#[global] Instance Point_eq_dec : EqDecision Point.t.
Proof. solve_decision. Defined.

Inductive Direction : Type := up | down | left | right.

#[global] Instance Direction_eq_dec : EqDecision Direction.
Proof. solve_decision. Defined.

(** The optional fields [initialLength?] and [wrap?] are [None] when the
    property is absent. *)
Record GameConfig : Type := mkConfig {
  cols : Z;
  rows : Z;
  initialLength : option Z;
  wrap : option bool
}.

Record GameState : Type := mkState {
  snake : list Point.t;  (* head is at index 0 *)
  direction : Direction;
  food : Point.t;
  score : Z;
  isGameOver : bool;
  tick : Z
}.

(** Truthiness of the optional flag, as tested by [if (config.wrap)]. *)
Definition truthy (b : option bool) : bool :=
  match b with
  | Some true => true
  | _ => false
  end.

(** ** The ambient random source *)

(** A value of [Math.random()]: the fraction [numer / denom], which lies in
    the half-open interval from 0 to 1. *)
Record random : Type := mkRandom {
  numer : Z;
  denom : Z;
  in_unit : (0 <=? numer) && (numer <? denom) = true
}.

(** [Math.floor(r * n)], with the product taken exactly.  The source
    multiplies doubles, so for some draws its product is rounded across an
    integer and its index is the neighbour of this one. *)
Definition floor_scale (r : random) (n : Z) : Z := numer r * n / denom r.

(** ** spawnFood *)

(** The template literal [`${x},${y}`]. *)
Definition key (a b : jsnum) : string := toString a +:+ "," +:+ toString b.

Definition point_key (p : Point.t) : string := key (Point.x p) (Point.y p).

(** [new Set(snake.map(p => `${p.x},${p.y}`))] *)
Definition occupied (body : list Point.t) : gset string :=
  list_to_set (map point_key body).

(** The inner loop over [x] for a fixed row [y], pushing onto [acc]. *)
Definition scan_row (occ : gset string) (width : Z) (acc : list Point.t) (j : Z)
  : list Point.t :=
  foldl (fun acc i =>
           if decide (key (Num i) (Num j) ∈ occ) then acc
           else acc ++ [Point.mk (Num i) (Num j)])
        acc (seqZ 0 width).

(** The two nested loops that fill [freeCells]. *)
Definition freeCells (config : GameConfig) (body : list Point.t) : list Point.t :=
  foldl (scan_row (occupied body) (cols config)) [] (seqZ 0 (rows config)).

Definition sentinel : Point.t := Point.mk (Num (-1)) (Num (-1)).

(** [freeCells[idx]] is [undefined] when [idx] is not an index of the
    array; [in_unit] rules this out (see [spawnFood_index_in_range]), so
    the default below is never reached. *)
Definition spawnFood (config : GameConfig) (r : random) (body : list Point.t)
  : Point.t :=
  let free := freeCells config body in
  if Z.of_nat (length free) =? 0 then sentinel
  else
    let idx := floor_scale r (Z.of_nat (length free)) in
    default sentinel (free !! Z.to_nat idx).

(** ** createInitialState *)

(** [Array.from({ length }, (_, i) => ({ x: startX - i, y: startY }))] *)
Definition initial_snake (len startX startY : Z) : list Point.t :=
  map (fun i => Point.mk (Num (startX - i)) (Num startY)) (seqZ 0 len).

(** The state that [createInitialState] builds once the array exists. *)
Definition initial_state (config : GameConfig) (r : random) : GameState :=
  let len := Z.max 3 (default 4 (initialLength config)) in
  let startX := cols config / 2 in
  let startY := rows config / 2 in
  let body := initial_snake len startX startY in
  {| snake := body;
     direction := right;
     food := spawnFood config r body;
     score := 0;
     isGameOver := false;
     tick := 0 |}.

(** [createInitialState] returns [None] where the source throws:
    [Array.from({ length }, ...)] is a [RangeError] for a length of 2^32 or
    more. *)
Definition createInitialState (config : GameConfig) (r : random)
  : option GameState :=
  let len := Z.max 3 (default 4 (initialLength config)) in
  if 2 ^ 32 <=? len then None else Some (initial_state config r).

(** ** changeDirection *)

Definition opposite (d : Direction) : Direction :=
  match d with
  | up => down
  | down => up
  | left => right
  | right => left
  end.

Definition set_direction (state : GameState) (dir : Direction) : GameState :=
  {| snake := snake state;
     direction := dir;
     food := food state;
     score := score state;
     isGameOver := isGameOver state;
     tick := tick state |}.

(** The source updates the object it is given; the model returns the
    object's contents after the call. *)
Definition changeDirection (state : GameState) (dir : Direction) : GameState :=
  if decide (opposite (direction state) = dir) then state
  else set_direction state dir.

(** ** step *)

(** [p.x === q.x && p.y === q.y] *)
Definition same_cell (p q : Point.t) : bool :=
  js_eq (Point.x p) (Point.x q) && js_eq (Point.y p) (Point.y q).

(** The [switch] on the direction. *)
Definition advance (d : Direction) (head : Point.t) : Point.t :=
  match d with
  | up => Point.mk (Point.x head) (js_add (Point.y head) (-1))
  | down => Point.mk (Point.x head) (js_add (Point.y head) 1)
  | left => Point.mk (js_add (Point.x head) (-1)) (Point.y head)
  | right => Point.mk (js_add (Point.x head) 1) (Point.y head)
  end.

(** [(n + size) % size] *)
Definition wrap_coord (n : jsnum) (size : Z) : jsnum := js_rem (js_add n size) size.

(** The wrap adjustment of [nx] and [ny]. *)
Definition wrap_head (config : GameConfig) (p : Point.t) : Point.t :=
  if truthy (wrap config)
  then Point.mk (wrap_coord (Point.x p) (cols config))
                (wrap_coord (Point.y p) (rows config))
  else p.

(** The candidate head: [(nx, ny)] as it stands after the wrap adjustment. *)
Definition candidate (config : GameConfig) (d : Direction) (head : Point.t) : Point.t :=
  wrap_head config (advance d head).

(** [!config.wrap && (nx < 0 || ny < 0 || nx >= config.cols || ny >= config.rows)] *)
Definition hits_wall (config : GameConfig) (p : Point.t) : bool :=
  negb (truthy (wrap config)) &&
  (js_lt (Point.x p) 0 || js_lt (Point.y p) 0 ||
   js_ge (Point.x p) (cols config) || js_ge (Point.y p) (rows config)).

(** [{ ...state, isGameOver: true }] *)
Definition game_over (state : GameState) : GameState :=
  {| snake := snake state;
     direction := direction state;
     food := food state;
     score := score state;
     isGameOver := true;
     tick := tick state |}.

(** [willEat ? state.snake : state.snake.slice(0, -1)] *)
Definition bodyToCheck (willEat : bool) (body : list Point.t) : list Point.t :=
  if willEat then body else removelast body.

(** [step] returns [None] where the source throws: reading [head.x] of an
    empty snake is a [TypeError].  [r] is the value that [Math.random()]
    yields if food placement consults it during this call. *)
Definition step (config : GameConfig) (r : random) (state : GameState)
  : option GameState :=
  if isGameOver state then Some state
  else
    match snake state with
    | [] => None
    | head :: _ =>
      let newHead := candidate config (direction state) head in
      if hits_wall config newHead then Some (game_over state)
      else
        let willEat := same_cell newHead (food state) in
        if existsb (fun p => same_cell p newHead) (bodyToCheck willEat (snake state))
        then Some (game_over state)
        else
          let grown := newHead :: snake state in
          let newSnake := if willEat then grown else removelast grown in
          let newScore := if willEat then round_double (score state + 10)
                          else score state in
          let newFood := if willEat then spawnFood config r newSnake
                         else food state in
          Some {| snake := newSnake;
                  direction := direction state;
                  food := newFood;
                  score := newScore;
                  isGameOver := isGameOver state;
                  tick := round_double (tick state + 1) |}
    end.

(** ** Vocabulary of the statements *)

(** Both coordinates are integers: the point is a cell of the grid plane. *)
Definition integral (p : Point.t) : bool :=
  match p with
  | Point.mk (Num _) (Num _) => true
  | _ => false
  end.

(** The point is a cell of the board, [0 <= x < cols] and [0 <= y < rows]. *)
Definition in_bounds (config : GameConfig) (p : Point.t) : bool :=
  match p with
  | Point.mk (Num a) (Num b) =>
    (0 <=? a) && (a <? cols config) && (0 <=? b) && (b <? rows config)
  | _ => false
  end.

(** The displacement of one move, read off the [switch] in [step]. *)
Definition offset (d : Direction) : Z * Z :=
  match d with
  | up => (0, -1)
  | down => (0, 1)
  | left => (-1, 0)
  | right => (1, 0)
  end.

(** [d'] is the geometric opposite of [d]: the two displacements cancel. *)
Definition reverses (d d' : Direction) : Prop :=
  (offset d).1 + (offset d').1 = 0 /\ (offset d).2 + (offset d').2 = 0.

(** Every cell of the board is covered by [body]. *)
Definition board_full (config : GameConfig) (body : list Point.t) : Prop :=
  forall a b, 0 <= a < cols config -> 0 <= b < rows config ->
    Point.mk (Num a) (Num b) ∈ body.

(** No character of the string is a comma. *)
Fixpoint comma_free (s : string) : bool :=
  match s with
  | EmptyString => true
  | String c s' => negb (Ascii.eqb c ",") && comma_free s'
  end.

(** The cells of row [j] from left to right, and the cells of the board
    row after row. *)
Definition row_cells (width j : Z) : list Point.t :=
  (fun i => Point.mk (Num i) (Num j)) <$> seqZ 0 width.

Definition board_cells (config : GameConfig) : list Point.t :=
  seqZ 0 (rows config) ≫= row_cells (cols config).

(** [p] comes before [q] in row-major order: on an earlier row, or on the
    same row further left. *)
Definition row_major_lt (p q : Point.t) : Prop :=
  exists a b c d,
    p = Point.mk (Num a) (Num b) /\ q = Point.mk (Num c) (Num d) /\
    (b < d \/ (b = d /\ a < c)).

(** The test that decides between growing and moving:
    [nx === state.food.x && ny === state.food.y] for the head [head]. *)
Definition willEat (config : GameConfig) (state : GameState) (head : Point.t) : bool :=
  same_cell (candidate config (direction state) head) (food state).

(** The candidate head meets one of the cells that [step] checks. *)
Definition bites (config : GameConfig) (state : GameState) (head : Point.t) : bool :=
  existsb (fun p => same_cell p (candidate config (direction state) head))
          (bodyToCheck (willEat config state head) (snake state)).

(** ** SnakeCanvas.tsx: how the component drives the core *)


(** What the component hands to [setState]: the interval callback
    [prev => step(config, prev)], the direction keys
    [prev => { const next = { ...prev }; changeDirection(next, m); return next }]
    and the restart [createInitialState(config)].  [Tick] and [Restart]
    carry the value of the random source that the call would read. *)
Inductive event : Type :=
| Tick (r : random)
| Turn (dir : Direction)
| Restart (r : random).

(** The state after one event; [None] where [step] or
    [createInitialState] throws. *)
Definition apply_event (config : GameConfig) (e : event) (state : GameState)
  : option GameState :=
  match e with
  | Tick r => step config r state
  | Turn dir => Some (changeDirection state dir)
  | Restart r => createInitialState config r
  end.

(** The state after a sequence of events, applied in order. *)
Fixpoint run (config : GameConfig) (events : list event) (state : GameState)
  : option GameState :=
  match events with
  | [] => Some state
  | e :: events' =>
    match apply_event config e state with
    | Some state' => run config events' state'
    | None => None
    end
  end.

(** [if (state.food.x >= 0)], the guard around the drawing of the food. *)
Definition food_drawn (state : GameState) : bool := js_ge (Point.x (food state)) 0.

(** [Math.max(30, Math.floor(1000 / speed))] for an integer [speed]; [None]
    stands for the infinite value that a [speed] of zero produces. *)
Definition ms (speed : Z) : option Z :=
  if speed =? 0 then None else Some (Z.max 30 (1000 / speed)).

(** ** Vocabulary of the invariants *)

(** The snake has a head, lies on the board and does not cross itself, and
    the food is the sentinel or a cell of the board off the snake. *)
Definition on_board (config : GameConfig) (state : GameState) : Prop :=
  snake state <> [] /\
  (forall p, p ∈ snake state -> in_bounds config p = true) /\
  NoDup (snake state) /\
  (food state = sentinel \/
   (in_bounds config (food state) = true /\ food state ∉ snake state)).

(** [Math.max(3, config.initialLength ?? 4)] *)
Definition start_length (config : GameConfig) : Z :=
  Z.max 3 (default 4 (initialLength config)).

(** The initial snake has room to the left of the board's centre. *)
Definition fits (config : GameConfig) : Prop :=
  start_length config <= cols config / 2 + 1 /\ 1 <= rows config.

(** The number of [Tick]s after the last [Restart]. *)
Definition ticks_since_restart (events : list event) : Z :=
  foldl (fun n e => match e with
                    | Tick _ => n + 1
                    | Turn _ => n
                    | Restart _ => 0
                    end) 0 events.

Definition is_restart (e : event) : bool :=
  match e with
  | Restart _ => true
  | _ => false
  end.

(** The score matches the growth of the snake since the start, as long as
    the matching score is at most 2^53. *)
Definition score_tracks_growth (config : GameConfig) (state : GameState) : Prop :=
  start_length config <= Z.of_nat (length (snake state)) /\
  (10 * (Z.of_nat (length (snake state)) - start_length config) <= 2 ^ 53 ->
   score state = 10 * (Z.of_nat (length (snake state)) - start_length config)).

(** The tick matches a count [n] of interval callbacks: it is at most [n]
    and at most 2^53, and it is [n] while the game is on and [n] is at most
    2^53. *)
Definition tick_counts (n : Z) (state : GameState) : Prop :=
  0 <= tick state <= n /\
  tick state <= 2 ^ 53 /\
  (isGameOver state = false -> n <= 2 ^ 53 -> tick state = n).

(** The direction changes of a sequence of events, applied in order. *)
Definition turns_only (events : list event) (state : GameState) : GameState :=
  foldl (fun s e => match e with
                    | Turn dir => changeDirection s dir
                    | _ => s
                    end) state events.

(** The food is the sentinel exactly when the snake has as many cells as
    the board. *)
Definition food_tells_full (config : GameConfig) (state : GameState) : Prop :=
  food state = sentinel <->
  Z.of_nat (length (snake state)) = cols config * rows config.

(** ** Sample boards, states and draws *)

Definition lost_game : GameState :=
  {| snake := [Point.mk (Num 2) (Num 0); Point.mk (Num 1) (Num 0); Point.mk (Num 0) (Num 0)];
     direction := right;
     food := Point.mk (Num 1) (Num 1);
     score := 30;
     isGameOver := true;
     tick := 17 |}.

Definition open_board : GameConfig :=
  {| cols := 3; rows := 3; initialLength := None; wrap := Some false |}.


Definition first_draw : random := mkRandom 0 1 eq_refl.
Definition middle_draw : random := mkRandom 1 2 eq_refl.

Definition at_right_edge : GameState :=
  {| snake := [Point.mk (Num 2) (Num 0); Point.mk (Num 1) (Num 0); Point.mk (Num 0) (Num 0)];
     direction := right;
     food := Point.mk (Num 1) (Num 1);
     score := 0;
     isGameOver := false;
     tick := 4 |}.

Definition twelve_board : GameConfig :=
  {| cols := 12; rows := 12; initialLength := Some 5; wrap := Some false |}.

Definition about_to_eat : GameState :=
  {| snake := [Point.mk (Num 1) (Num 1); Point.mk (Num 0) (Num 1); Point.mk (Num 0) (Num 0)];
     direction := right;
     food := Point.mk (Num 2) (Num 1);
     score := 20;
     isGameOver := false;
     tick := 9 |}.

Definition chasing_tail : GameState :=
  {| snake := [Point.mk (Num 0) (Num 0); Point.mk (Num 1) (Num 0);
               Point.mk (Num 1) (Num 1); Point.mk (Num 0) (Num 1)];
     direction := down;
     food := Point.mk (Num 2) (Num 2);
     score := 10;
     isGameOver := false;
     tick := 12 |}.


Definition board_won : GameState :=
  {| snake := [Point.mk (Num 0) (Num 0); Point.mk (Num 1) (Num 0); Point.mk (Num 2) (Num 0)];
     direction := left;
     food := sentinel;
     score := 60;
     isGameOver := false;
     tick := 40 |}.

Definition small_board : GameConfig :=
  {| cols := 2; rows := 2; initialLength := None; wrap := Some false |}.

Definition one_cell_left : GameState :=
  {| snake := [Point.mk (Num 0) (Num 0); Point.mk (Num 1) (Num 0); Point.mk (Num 1) (Num 1)];
     direction := down;
     food := Point.mk (Num 0) (Num 1);
     score := 0;
     isGameOver := false;
     tick := 3 |}.

Definition tight_loop : GameState :=
  {| snake := [Point.mk (Num 5) (Num 5); Point.mk (Num 6) (Num 5); Point.mk (Num 6) (Num 6);
               Point.mk (Num 5) (Num 6); Point.mk (Num 4) (Num 6)];
     direction := right;
     food := Point.mk (Num 0) (Num 0);
     score := 0;
     isGameOver := false;
     tick := 7 |}.

Definition narrow_board : GameConfig :=
  {| cols := 4; rows := 4; initialLength := Some 5; wrap := Some false |}.

Definition heading_right : GameState :=
  {| snake := [Point.mk (Num 6) (Num 6); Point.mk (Num 5) (Num 6); Point.mk (Num 4) (Num 6)];
     direction := right;
     food := Point.mk (Num 9) (Num 5);
     score := 0;
     isGameOver := false;
     tick := 0 |}.

Definition full_circle : GameState :=
  {| snake := [Point.mk (Num 0) (Num 0); Point.mk (Num 1) (Num 0);
               Point.mk (Num 1) (Num 1); Point.mk (Num 0) (Num 1)];
     direction := down;
     food := sentinel;
     score := 10;
     isGameOver := false;
     tick := 12 |}.



(** ** Basic facts about the number operations *)

(** Sums that stay within 2^53 in magnitude are exact. *)
Lemma round_double_exact z : - 2 ^ 53 <= z <= 2 ^ 53 -> round_double z = z.
Proof.
  intros Hz. unfold round_double.
  destruct (Z.ltb_spec (Z.abs z) (2 ^ 53)) as [|Hbig]; [done|].
  assert (Hcase : z = 2 ^ 53 \/ z = - 2 ^ 53) by lia.
  destruct Hcase as [-> | ->]; reflexivity.
Qed.

(** At 2^53 a counter that adds one stops. *)
Lemma round_double_stuck : round_double (2 ^ 53 + 1) = 2 ^ 53.
Proof. reflexivity. Qed.

Lemma round_double_succ t :
  0 <= t <= 2 ^ 53 -> t <= round_double (t + 1) <= 2 ^ 53.
Proof.
  intros Ht. destruct (Z.eq_dec t (2 ^ 53)) as [->|Hne].
  - rewrite round_double_stuck. lia.
  - rewrite round_double_exact by lia. lia.
Qed.

Lemma js_eq_true a b : js_eq a b = true <-> exists u, a = Num u /\ b = Num u.
Proof.
  destruct a as [|u], b as [|v]; simpl; split;
    try discriminate; try (intros (w & Ha & Hb); discriminate).
  - intros H%Z.eqb_eq. subst. eauto.
  - intros (w & [= ->] & [= ->]). apply Z.eqb_refl.
Qed.

Lemma js_eq_sym a b : js_eq a b = js_eq b a.
Proof. destruct a, b; simpl; auto using Z.eqb_sym. Qed.

Lemma same_cell_sym p q : same_cell p q = same_cell q p.
Proof. unfold same_cell. by rewrite (js_eq_sym (Point.x p)), (js_eq_sym (Point.y p)). Qed.

Lemma same_cell_true p q : same_cell p q = true <-> integral p = true /\ p = q.
Proof.
  destruct p as [a b], q as [c d]. unfold same_cell. simpl.
  rewrite andb_true_iff, !js_eq_true. split.
  - intros [(u & -> & ->) (v & -> & ->)]. auto.
  - intros [Hi [= <- <-]]. destruct a as [|u], b as [|v]; try discriminate.
    split; eauto.
Qed.

(** The test [willEat] holds exactly when the candidate head is a cell of
    the grid plane and is the food's cell. *)
Lemma willEat_true config state head :
  willEat config state head = true <->
  integral (candidate config (direction state) head) = true /\
  candidate config (direction state) head = food state.
Proof. apply same_cell_true. Qed.

Lemma advance_offset d a b :
  advance d (Point.mk (Num a) (Num b))
  = Point.mk (Num (a + (offset d).1)) (Num (b + (offset d).2)).
Proof. destruct d; simpl; f_equal; f_equal; lia. Qed.

Lemma opposite_reverses d d' : opposite d = d' <-> reverses d d'.
Proof.
  unfold reverses. destruct d, d'; simpl; split;
    intros H; try discriminate; try reflexivity; try (split; reflexivity);
    destruct H; discriminate.
Qed.

(** ** The terminal state *)

(** C1. Once [isGameOver] holds, [step] hands the state back as it is, for
    every configuration and every value of the random source: the game
    stays over and the snake, the food, the score and the tick are those of
    the input; a further [step] changes nothing either. *)
Theorem step_terminal_absorbing (config : GameConfig) (r : random) (state : GameState) :
  isGameOver state = true ->
  exists state',
    step config r state = Some state' /\
    isGameOver state' = true /\
    snake state' = snake state /\
    food state' = food state /\
    score state' = score state /\
    tick state' = tick state /\
    step config r state' = Some state'.
Proof.
  intros Hover. exists state. unfold step. rewrite Hover. done.
Qed.

Lemma step_terminal_absorbing_witness :
  exists state',
    step open_board middle_draw lost_game = Some state' /\
    isGameOver state' = true /\
    snake state' = snake lost_game /\
    food state' = food lost_game /\
    score state' = score lost_game /\
    tick state' = tick lost_game /\
    step open_board middle_draw state' = Some state'.
Proof. apply (step_terminal_absorbing open_board middle_draw lost_game). reflexivity. Defined.

(** ** The direction mutator *)

(** C8. A request for the geometric opposite of the current direction leaves
    the state as it is; any other request, the current direction included,
    becomes the new direction; the snake, the food, the score, the tick and
    the game-over flag are never touched. *)
Theorem changeDirection_frame (state : GameState) (dir : Direction) :
  (reverses (direction state) dir -> changeDirection state dir = state) /\
  (~ reverses (direction state) dir -> direction (changeDirection state dir) = dir) /\
  snake (changeDirection state dir) = snake state /\
  food (changeDirection state dir) = food state /\
  score (changeDirection state dir) = score state /\
  tick (changeDirection state dir) = tick state /\
  isGameOver (changeDirection state dir) = isGameOver state.
Proof.
  unfold changeDirection. rewrite <- opposite_reverses.
  case_decide as Hopp; simpl; repeat split; done.
Qed.

Lemma changeDirection_frame_witness :
  changeDirection at_right_edge left = at_right_edge /\
  direction (changeDirection at_right_edge up) = up.
Proof.
  split.
  - apply (changeDirection_frame at_right_edge left). split; reflexivity.
  - apply (changeDirection_frame at_right_edge up). intros [_ Hy]. discriminate Hy.
Defined.

(** ** Leaving a board that does not wrap *)

Lemma hits_wall_outside config p :
  truthy (wrap config) = false -> integral p = true -> in_bounds config p = false ->
  hits_wall config p = true.
Proof.
  intros Hw Hint Hout. unfold hits_wall. rewrite Hw. simpl.
  destruct p as [[|a] [|b]]; try discriminate. simpl in *.
  destruct (Z.ltb_spec a 0), (Z.ltb_spec b 0),
    (Z.leb_spec (cols config) a), (Z.leb_spec (rows config) b); simpl; try done.
  exfalso. revert Hout.
  rewrite !andb_false_iff, !Z.leb_gt, !Z.ltb_ge. lia.
Qed.

(** On cells of the grid plane the wall test fails exactly when the board
    wraps or the cell is on the board. *)
Lemma hits_wall_false config p :
  integral p = true ->
  hits_wall config p = false <->
  truthy (wrap config) = true \/ in_bounds config p = true.
Proof.
  intros Hint. destruct p as [[|a] [|b]]; try discriminate. clear Hint.
  unfold hits_wall. simpl. destruct (truthy (wrap config)); simpl.
  - split; auto.
  - rewrite !orb_false_iff, !andb_true_iff, !Z.ltb_ge, !Z.leb_gt, !Z.leb_le, !Z.ltb_lt.
    split.
    + intros H. right. lia.
    + intros [[=]|H]. lia.
Qed.

(** C5. On a board that does not wrap, an active state whose candidate head
    is a cell outside the board is answered by a copy of the state with
    [isGameOver] set and everything else, the tick included, as before. *)
Theorem step_wall_collision (config : GameConfig) (r : random) (state : GameState)
    (head : Point.t) (rest : list Point.t) :
  truthy (wrap config) = false ->
  isGameOver state = false ->
  snake state = head :: rest ->
  integral (candidate config (direction state) head) = true ->
  in_bounds config (candidate config (direction state) head) = false ->
  exists state',
    step config r state = Some state' /\
    isGameOver state' = true /\
    snake state' = snake state /\
    direction state' = direction state /\
    food state' = food state /\
    score state' = score state /\
    tick state' = tick state.
Proof.
  intros Hw Hact Hsnake Hint Hout. exists (game_over state).
  unfold step. rewrite Hact, Hsnake.
  rewrite (hits_wall_outside _ _ Hw Hint Hout). done.
Qed.

Lemma step_wall_collision_witness :
  exists state',
    step open_board middle_draw at_right_edge = Some state' /\
    isGameOver state' = true /\
    snake state' = snake at_right_edge /\
    direction state' = direction at_right_edge /\
    food state' = food at_right_edge /\
    score state' = score at_right_edge /\
    tick state' = tick at_right_edge.
Proof.
  apply (step_wall_collision open_board middle_draw at_right_edge
           (Point.mk (Num 2) (Num 0))
           [Point.mk (Num 1) (Num 0); Point.mk (Num 0) (Num 0)]);
    reflexivity.
Defined.

(** ** The initial state *)

Lemma length_initial_snake len sx sy : 0 <= len ->
  Z.of_nat (length (initial_snake len sx sy)) = len.
Proof. intros. unfold initial_snake. rewrite length_map, length_seqZ. lia. Qed.


Lemma createInitialState_Some config r start :
  createInitialState config r = Some start <->
  Z.max 3 (default 4 (initialLength config)) < 2 ^ 32 /\ start = initial_state config r.
Proof.
  unfold createInitialState.
  destruct (Z.leb_spec (2 ^ 32) (Z.max 3 (default 4 (initialLength config)))) as [Hbig|Hok].
  - split; [done|]. intros [Hlt _]. lia.
  - split; [by intros [= <-]|by intros [_ ->]].
Qed.




(** ** The keys of the occupied set *)

Lemma comma_free_uint d : comma_free (NilEmpty.string_of_uint d) = true.
Proof. induction d; simpl; auto. Qed.

Lemma comma_free_toString a : comma_free (toString a) = true.
Proof.
  destruct a as [|u]; [reflexivity|]. simpl.
  destruct (Z.to_int u); simpl; apply comma_free_uint.
Qed.

Lemma append_comma_inj s1 s2 t1 t2 :
  comma_free s1 = true -> comma_free s2 = true ->
  s1 +:+ "," +:+ t1 = s2 +:+ "," +:+ t2 -> s1 = s2 /\ t1 = t2.
Proof.
  revert s2. induction s1 as [|c s1 IH]; intros [|c' s2]; cbn.
  - intros _ _ [= Heq]. done.
  - intros _ [Hc _]%andb_true_iff [= <- _].
    by rewrite Ascii.eqb_refl in Hc.
  - intros [Hc _]%andb_true_iff _ [= -> _].
    by rewrite Ascii.eqb_refl in Hc.
  - intros [_ H1]%andb_true_iff [_ H2]%andb_true_iff [= -> Heq].
    destruct (IH s2 H1 H2 Heq) as [-> ->]. done.
Qed.

Lemma toString_inj a b : toString a = toString b -> a = b.
Proof.
  destruct a as [|u], b as [|v]; simpl; intros Heq; try done.
  - apply (f_equal NilEmpty.int_of_string) in Heq.
    rewrite NilEmpty.isi in Heq. discriminate.
  - apply (f_equal NilEmpty.int_of_string) in Heq.
    rewrite NilEmpty.isi in Heq. discriminate.
  - apply (f_equal NilEmpty.int_of_string) in Heq.
    rewrite !NilEmpty.isi in Heq. injection Heq as Heq.
    by apply DecimalZ.to_int_inj in Heq as ->.
Qed.

Lemma key_inj a b c d : key a b = key c d -> a = c /\ b = d.
Proof.
  unfold key. intros Heq.
  apply append_comma_inj in Heq as [H1 H2]; auto using comma_free_toString.
  split; by apply toString_inj.
Qed.

Lemma point_key_inj p q : point_key p = point_key q -> p = q.
Proof.
  destruct p, q. unfold point_key. simpl.
  intros [-> ->]%key_inj. done.
Qed.

Lemma elem_of_occupied p body : point_key p ∈ occupied body <-> p ∈ body.
Proof.
  unfold occupied. rewrite elem_of_list_to_set.
  change (map point_key body) with (point_key <$> body).
  rewrite list_elem_of_fmap. split.
  - intros (q & Hk & Hq). by apply point_key_inj in Hk as ->.
  - intros Hp. eauto.
Qed.

(** ** The free cells *)

Lemma scan_row_filter occ width acc j :
  scan_row occ width acc j
  = acc ++ filter (fun p => point_key p ∉ occ) (row_cells width j).
Proof.
  unfold scan_row, row_cells. generalize (seqZ 0 width) as l. intros l.
  revert acc. induction l as [|i l IH]; intros acc.
  - simpl. by rewrite app_nil_r.
  - rewrite fmap_cons, filter_cons. cbn [foldl]. rewrite IH.
    unfold point_key at 2. simpl.
    case_decide; case_decide; try done.
    by rewrite <- app_assoc.
Qed.

Section food_placement.
Context (config : GameConfig) (r : random) (body : list Point.t).

Lemma freeCells_filter :
  freeCells config body = filter (fun p => p ∉ body) (board_cells config).
Proof.
  unfold freeCells, board_cells.
  assert (Hgen : forall l acc,
    foldl (scan_row (occupied body) (cols config)) acc l
    = acc ++ filter (fun p => p ∉ body) (l ≫= row_cells (cols config))).
  { induction l as [|j l IH]; intros acc.
    - simpl. by rewrite app_nil_r.
    - rewrite bind_cons, filter_app. cbn [foldl].
      rewrite IH, scan_row_filter, <- app_assoc. do 2 f_equal.
      apply list_filter_iff. intros p. by rewrite elem_of_occupied. }
  apply Hgen.
Qed.

Lemma in_bounds_true p :
  in_bounds config p = true <->
  exists a b, p = Point.mk (Num a) (Num b) /\
              0 <= a < cols config /\ 0 <= b < rows config.
Proof.
  destruct p as [[|a] [|b]]; simpl; split; try discriminate;
    try (by intros (a' & b' & [=] & _)).
  - rewrite !andb_true_iff, !Z.leb_le, !Z.ltb_lt. intros. exists a, b. split; [done|lia].
  - intros (a' & b' & [= -> ->] & Ha & Hb).
    rewrite !andb_true_iff, !Z.leb_le, !Z.ltb_lt. lia.
Qed.

Lemma elem_of_row_cells width j p :
  p ∈ row_cells width j <-> exists a, p = Point.mk (Num a) (Num j) /\ 0 <= a < width.
Proof.
  unfold row_cells. rewrite list_elem_of_fmap.
  setoid_rewrite elem_of_seqZ. naive_solver lia.
Qed.

Lemma elem_of_board_cells p :
  p ∈ board_cells config <-> in_bounds config p = true.
Proof.
  unfold board_cells. rewrite list_elem_of_bind, in_bounds_true.
  setoid_rewrite elem_of_row_cells. setoid_rewrite elem_of_seqZ.
  split.
  - intros (j & (a & -> & Ha) & Hj). exists a, j. split; [done|lia].
  - intros (a & b & -> & Ha & Hb). exists b. split; [exists a; split; [done|lia]|lia].
Qed.

Lemma elem_of_freeCells p :
  p ∈ freeCells config body <-> in_bounds config p = true /\ p ∉ body.
Proof.
  rewrite freeCells_filter, list_elem_of_filter, elem_of_board_cells. tauto.
Qed.


(** ** Row-major order *)

Lemma seqZ_sorted m n : StronglySorted Z.lt (seqZ m n).
Proof.
  unfold seqZ. apply (StronglySorted_fmap _ lt).
  - intros u v Huv. lia.
  - generalize 0%nat as s.
    induction (Z.to_nat n) as [|k IH]; intros s; simpl; constructor.
    + apply IH.
    + apply Forall_forall. intros u Hu%list_elem_of_In%in_seq. lia.
Qed.

Lemma row_cells_sorted width j : StronglySorted row_major_lt (row_cells width j).
Proof.
  unfold row_cells. apply (StronglySorted_fmap _ Z.lt); [|apply seqZ_sorted].
  intros a c Hac. exists a, j, c, j. auto.
Qed.

Lemma board_cells_sorted : StronglySorted row_major_lt (board_cells config).
Proof.
  unfold board_cells.
  assert (Hgen : forall l, StronglySorted Z.lt l ->
            StronglySorted row_major_lt (l ≫= row_cells (cols config))).
  { induction l as [|j l IH]; intros Hl.
    - constructor.
    - rewrite bind_cons. apply StronglySorted_cons in Hl as [Hj Hl].
      apply StronglySorted_app_2; [|apply row_cells_sorted|by apply IH].
      intros p q (a & -> & _)%elem_of_row_cells
        (j' & (c & -> & _)%elem_of_row_cells & Hj')%list_elem_of_bind.
      rewrite Forall_forall in Hj. exists a, j, c, j'. split_and!; try done.
      left. by apply Hj. }
  apply Hgen, seqZ_sorted.
Qed.




(** ** Food placement *)

Lemma floor_scale_range n : 0 < n -> 0 <= floor_scale r n < n.
Proof.
  intros Hn. unfold floor_scale.
  pose proof (in_unit r) as Hr.
  apply andb_true_iff in Hr as [H0%Z.leb_le Hlt%Z.ltb_lt].
  split.
  - apply Z.div_pos; nia.
  - apply Z.div_lt_upper_bound; nia.
Qed.

(** The index computed by [spawnFood] always addresses a free cell. *)
Lemma spawnFood_index_in_range :
  freeCells config body <> [] ->
  exists p,
    freeCells config body
      !! Z.to_nat (floor_scale r (Z.of_nat (length (freeCells config body)))) = Some p /\
    spawnFood config r body = p.
Proof.
  intros Hne. unfold spawnFood.
  destruct (freeCells config body) as [|c l] eqn:Hfree; [done|].
  set (free := c :: l) in *. set (n := Z.of_nat (length free)).
  assert (Hn : 0 < n) by (unfold n, free; simpl; lia).
  destruct (Z.eqb_spec n 0) as [|_]; [lia|].
  pose proof (floor_scale_range n Hn) as Hidx.
  destruct (lookup_lt_is_Some_2 free (Z.to_nat (floor_scale r n))) as [p Hp];
    [unfold n in *; lia|].
  exists p. by rewrite Hp.
Qed.

Lemma spawnFood_full :
  freeCells config body = [] -> spawnFood config r body = sentinel.
Proof. intros Hnil. unfold spawnFood. by rewrite Hnil. Qed.

Lemma spawnFood_free :
  freeCells config body <> [] -> spawnFood config r body ∈ freeCells config body.
Proof.
  intros (p & Hp & ->)%spawnFood_index_in_range.
  by eapply list_elem_of_lookup_2.
Qed.

Lemma sentinel_out_of_bounds : in_bounds config sentinel = false.
Proof. reflexivity. Qed.


End food_placement.




(** ** One tick of an active game *)

(** The three ways an active state with a head can leave [step]. *)
Lemma step_active config r state head rest :
  isGameOver state = false ->
  snake state = head :: rest ->
  step config r state =
    let newHead := candidate config (direction state) head in
    if hits_wall config newHead || bites config state head
    then Some (game_over state)
    else
      let grown := newHead :: snake state in
      Some {| snake := if willEat config state head then grown else removelast grown;
              direction := direction state;
              food := if willEat config state head
                      then spawnFood config r grown else food state;
              score := if willEat config state head
                       then round_double (score state + 10) else score state;
              isGameOver := false;
              tick := round_double (tick state + 1) |}.
Proof.
  intros Hact Hsnake. unfold step, bites, willEat.
  rewrite Hact, Hsnake. cbv zeta.
  destruct (hits_wall config _); [done|]. simpl orb.
  destruct (existsb _ _); [done|].
  by destruct (same_cell _ (food state)).
Qed.

Lemma length_removelast_cons {A} (a : A) l : length (removelast (a :: l)) = length l.
Proof.
  change (a :: l) with ([a] ++ l).
  revert a. induction l as [|b l IH]; intros a; [done|].
  simpl in *. by rewrite IH.
Qed.

Lemma removelast_cons_cons {A} (a b : A) l :
  removelast (a :: b :: l) = a :: removelast (b :: l).
Proof. done. Qed.

Lemma elem_of_removelast {A} (p : A) l : p ∈ removelast l -> p ∈ l.
Proof.
  induction l as [|a [|b l] IH]; [done|by intros ?%not_elem_of_nil|].
  rewrite removelast_cons_cons. intros [->|Hp]%elem_of_cons; [left|right; auto].
Qed.

Lemma existsb_elem_of {A} (f : A -> bool) l :
  existsb f l = true <-> exists p, p ∈ l /\ f p = true.
Proof. rewrite existsb_exists. by setoid_rewrite list_elem_of_In. Qed.

(** The cells compared with the candidate head, for a snake that ends in
    [tail]: all cells before the tail, and the tail as well when eating. *)
Lemma bites_cells config state head body tail :
  snake state = body ++ [tail] ->
  bites config state head = true <->
  exists p, same_cell p (candidate config (direction state) head) = true /\
            (p ∈ body \/ (willEat config state head = true /\ p = tail)).
Proof.
  intros Hsnake. unfold bites. rewrite Hsnake, existsb_elem_of.
  destruct (willEat config state head); simpl.
  - split.
    + intros (p & [Hp | ->%list_elem_of_singleton]%elem_of_app & Hc); eauto.
    + intros (p & Hc & Hp). exists p. rewrite elem_of_app. split; [|done].
      destruct Hp as [Hp | [_ ->]]; [by left | right; left].
  - rewrite removelast_last. split.
    + intros (p & Hp & Hc). eauto.
    + intros (p & Hc & [Hp | [[=] _]]). eauto.
Qed.

Lemma in_bounds_integral config p : in_bounds config p = true -> integral p = true.
Proof. by destruct p as [[|a] [|b]]. Qed.








(** ** Self-collision *)



(** ** Wrapping at the edges *)

(** For a coordinate one step away from the board at most, the remainder
    computed by [(n + size) % size] is the mathematical residue. *)
Lemma wrap_coord_mod n size :
  1 <= size -> -1 <= n <= size ->
  wrap_coord (Num n) size = Num (Z.rem (n + size) size) /\
  Z.rem (n + size) size = n mod size /\
  0 <= n mod size < size.
Proof.
  intros Hsize Hn. unfold wrap_coord. simpl.
  destruct (Z.eqb_spec size 0) as [|_]; [lia|].
  split; [done|]. split.
  - rewrite Z.rem_mod_nonneg by lia.
    rewrite <- (Z.mul_1_l size) at 1. by rewrite Z.mod_add by lia.
  - apply Z.mod_pos_bound. lia.
Qed.

Lemma offset_unit d :
  -1 <= (offset d).1 <= 1 /\ -1 <= (offset d).2 <= 1.
Proof. destruct d; simpl; lia. Qed.

Lemma candidate_wrap config d hx hy :
  truthy (wrap config) = true ->
  candidate config d (Point.mk (Num hx) (Num hy))
  = Point.mk (wrap_coord (Num (hx + (offset d).1)) (cols config))
             (wrap_coord (Num (hy + (offset d).2)) (rows config)).
Proof.
  intros Hw. unfold candidate, wrap_head. by rewrite Hw, advance_offset.
Qed.

Lemma candidate_nowrap config d hx hy :
  truthy (wrap config) = false ->
  candidate config d (Point.mk (Num hx) (Num hy))
  = Point.mk (Num (hx + (offset d).1)) (Num (hy + (offset d).2)).
Proof.
  intros Hw. unfold candidate, wrap_head. by rewrite Hw, advance_offset.
Qed.



(** ** The sentinel food *)

(** From a head on the board, no candidate head is the sentinel: only one
    coordinate moves, and wrapping keeps both on the board. *)
Lemma candidate_not_sentinel config d hx hy :
  1 <= cols config -> 1 <= rows config ->
  0 <= hx < cols config -> 0 <= hy < rows config ->
  same_cell (candidate config d (Point.mk (Num hx) (Num hy))) sentinel = false.
Proof.
  intros Hc Hr Hx Hy.
  pose proof (offset_unit d) as [Hdx Hdy].
  destruct (truthy (wrap config)) eqn:Hw.
  - rewrite (candidate_wrap _ _ _ _ Hw).
    destruct (wrap_coord_mod (hx + (offset d).1) (cols config))
      as (-> & -> & Hbx); [lia|lia|].
    destruct (wrap_coord_mod (hy + (offset d).2) (rows config))
      as (-> & -> & Hby); [lia|lia|].
    unfold same_cell, sentinel. simpl.
    apply andb_false_iff. left. apply Z.eqb_neq. lia.
  - rewrite (candidate_nowrap _ _ _ _ Hw).
    unfold same_cell, sentinel. simpl.
    apply andb_false_iff. rewrite !Z.eqb_neq.
    destruct d; simpl; lia.
Qed.

(** C10. While the food is the sentinel, a state whose head is on a board
    of at least one column and one row never eats: the test [willEat]
    fails, [step] answers, the score and the food are those of the input
    and the snake is no longer than before. *)
Theorem sentinel_food_inedible (config : GameConfig) (r : random) (state : GameState)
    (head : Point.t) (rest : list Point.t) :
  1 <= cols config -> 1 <= rows config ->
  snake state = head :: rest ->
  in_bounds config head = true ->
  food state = sentinel ->
  willEat config state head = false /\
  exists state',
    step config r state = Some state' /\
    score state' = score state /\
    food state' = food state /\
    (length (snake state') <= length (snake state))%nat.
Proof.
  intros Hc Hr Hsnake (hx & hy & -> & Hx & Hy)%in_bounds_true Hfood.
  assert (Heat : willEat config state (Point.mk (Num hx) (Num hy)) = false).
  { unfold willEat. rewrite Hfood. by apply candidate_not_sentinel. }
  split; [done|].
  destruct (isGameOver state) eqn:Hover.
  - exists state. unfold step. rewrite Hover. done.
  - rewrite (step_active config r state _ rest Hover Hsnake). cbv zeta.
    rewrite Heat.
    destruct (hits_wall config _ || bites config state _).
    + exists (game_over state). done.
    + eexists. split; [reflexivity|]. cbn [snake score food].
      split_and!; try done. rewrite length_removelast_cons, Hsnake. done.
Qed.

Lemma sentinel_food_inedible_witness :
  willEat open_board board_won (Point.mk (Num 0) (Num 0)) = false /\
  exists state',
    step open_board middle_draw board_won = Some state' /\
    score state' = score board_won /\
    food state' = food board_won /\
    (length (snake state') <= length (snake board_won))%nat.
Proof.
  apply (sentinel_food_inedible open_board middle_draw board_won
           (Point.mk (Num 0) (Num 0))
           [Point.mk (Num 1) (Num 0); Point.mk (Num 2) (Num 0)]);
    simpl; first [reflexivity | lia].
Defined.

(** ** Determinism *)

(** C2, counterexample. On the three-by-three board the snake of
    [about_to_eat] eats on its next move and five cells stay free; a draw
    of 0 puts the new food on the first free cell, a draw of one half on
    the third.  The two applications of [step] to the same configuration and
    state differ. *)
Lemma step_depends_on_ambient_draw :
  step open_board first_draw about_to_eat <> step open_board middle_draw about_to_eat /\
  (food <$> step open_board first_draw about_to_eat) = Some (Point.mk (Num 1) (Num 0)) /\
  (food <$> step open_board middle_draw about_to_eat) = Some (Point.mk (Num 0) (Num 2)).
Proof.
  assert (H1 : (food <$> step open_board first_draw about_to_eat)
               = Some (Point.mk (Num 1) (Num 0))) by (vm_compute; reflexivity).
  assert (H2 : (food <$> step open_board middle_draw about_to_eat)
               = Some (Point.mk (Num 0) (Num 2))) by (vm_compute; reflexivity).
  split; [|done]. intros Heq. rewrite Heq, H2 in H1. discriminate.
Qed.

(** C2, amended. Two applications of [step] to one configuration and one
    state, each with its own value of the ambient random source, either
    both throw or both answer; the answers carry the same snake, direction,
    score, tick and game-over flag; and they carry the same food unless the
    state is active and its snake eats on this tick, in which case each
    food is what [spawnFood] makes of its own draw on the grown snake. *)
Theorem step_deterministic_up_to_food (config : GameConfig) (r1 r2 : random)
    (state : GameState) :
  (step config r1 state = None /\ step config r2 state = None) \/
  exists s1 s2,
    step config r1 state = Some s1 /\
    step config r2 state = Some s2 /\
    snake s1 = snake s2 /\
    direction s1 = direction s2 /\
    score s1 = score s2 /\
    tick s1 = tick s2 /\
    isGameOver s1 = isGameOver s2 /\
    (food s1 = food s2 \/
     (isGameOver state = false /\
      exists head rest,
        snake state = head :: rest /\
        willEat config state head = true /\
        food s1 = spawnFood config r1 (snake s1) /\
        food s2 = spawnFood config r2 (snake s2))).
Proof.
  destruct (isGameOver state) eqn:Hover.
  { right. exists state, state. unfold step. rewrite Hover. split_and!; auto. }
  destruct (snake state) as [|head rest] eqn:Hsnake.
  { left. unfold step. by rewrite Hover, Hsnake. }
  right.
  rewrite !(step_active config _ state head rest Hover Hsnake). cbv zeta.
  destruct (hits_wall config _ || bites config state head).
  { exists (game_over state), (game_over state). split_and!; auto. }
  eexists _, _. split; [reflexivity|]. split; [reflexivity|]. simpl.
  split_and!; try done.
  destruct (willEat config state head) eqn:Heat; [right|by left].
  split; [done|]. exists head, rest. by rewrite Hsnake.
Qed.


(** ** The scenarios of the game's description, run on the model *)

(** Twelve by twelve, no wrapping, initial length five: the head starts at
    [(6, 6)] heading right; one tick later it is at [(7, 6)], the last cell
    is gone, the tick is one and the score zero. *)
Example scenario_first_tick :
  exists start,
    createInitialState twelve_board middle_draw = Some start /\
    snake start = [Point.mk (Num 6) (Num 6); Point.mk (Num 5) (Num 6);
                   Point.mk (Num 4) (Num 6); Point.mk (Num 3) (Num 6);
                   Point.mk (Num 2) (Num 6)] /\
    direction start = right /\
    step twelve_board middle_draw start
    = Some {| snake := [Point.mk (Num 7) (Num 6); Point.mk (Num 6) (Num 6);
                        Point.mk (Num 5) (Num 6); Point.mk (Num 4) (Num 6);
                        Point.mk (Num 3) (Num 6)];
              direction := right;
              food := Point.mk (Num 9) (Num 5);
              score := 0;
              isGameOver := false;
              tick := 1 |}.
Proof. eexists. split; [reflexivity|]. vm_compute. done. Qed.

(** A snake of five cells that turns back into its own second cell. *)
Example scenario_self_collision :
  step twelve_board middle_draw tight_loop = Some (game_over tight_loop).
Proof. vm_compute. done. Qed.

(** Eating the food on the last free cell: the snake then covers the board
    and the next food is the sentinel. *)
Example scenario_last_cell :
  step small_board middle_draw one_cell_left
  = Some {| snake := [Point.mk (Num 0) (Num 1); Point.mk (Num 0) (Num 0);
                      Point.mk (Num 1) (Num 0); Point.mk (Num 1) (Num 1)];
            direction := down;
            food := sentinel;
            score := 10;
            isGameOver := false;
            tick := 4 |}.
Proof. vm_compute. done. Qed.

(** With a zero-width board and wrapping on, the remainder is [NaN] and
    the snake moves on with a head that is no cell. *)
Example scenario_zero_width :
  (snake <$> step {| cols := 0; rows := 3; initialLength := None; wrap := Some true |}
                  middle_draw at_right_edge)
  = Some [Point.mk NaN (Num 0); Point.mk (Num 2) (Num 0); Point.mk (Num 1) (Num 0)].
Proof. vm_compute. done. Qed.


(** ** The snake stays on the board and off itself *)

Lemma same_cell_false p q : integral p = true -> same_cell p q = false -> p <> q.
Proof.
  intros Hint Hne ->. assert (same_cell q q = true) by by apply same_cell_true.
  congruence.
Qed.

Lemma candidate_in_bounds config d head :
  in_bounds config head = true ->
  hits_wall config (candidate config d head) = false ->
  in_bounds config (candidate config d head) = true.
Proof.
  intros (hx & hy & -> & Hx & Hy)%in_bounds_true Hwall.
  destruct (truthy (wrap config)) eqn:Hw.
  - pose proof (offset_unit d) as [Hdx Hdy].
    rewrite (candidate_wrap _ _ _ _ Hw).
    destruct (wrap_coord_mod (hx + (offset d).1) (cols config))
      as (-> & -> & Hbx); [lia|lia|].
    destruct (wrap_coord_mod (hy + (offset d).2) (rows config))
      as (-> & -> & Hby); [lia|lia|].
    apply in_bounds_true. eauto.
  - rewrite (candidate_nowrap _ _ _ _ Hw) in *.
    apply hits_wall_false in Hwall as [Hwall|Hwall]; [congruence|done|done].
Qed.

Lemma NoDup_removelast {A} (l : list A) : NoDup l -> NoDup (removelast l).
Proof.
  induction l as [|a [|b l] IH]; [done|constructor|].
  rewrite removelast_cons_cons. intros [Ha Hl]%NoDup_cons.
  apply NoDup_cons. split; [|auto].
  intros Hin%elem_of_removelast. done.
Qed.

(** A candidate head that meets no checked cell is on none of them. *)
Lemma bites_false_not_in config state head :
  integral (candidate config (direction state) head) = true ->
  bites config state head = false ->
  candidate config (direction state) head
    ∉ bodyToCheck (willEat config state head) (snake state).
Proof.
  intros Hint Hb Hin. unfold bites in Hb.
  apply not_true_iff_false in Hb. apply Hb, existsb_elem_of.
  eexists. split; [exact Hin|]. by apply same_cell_true.
Qed.

Lemma step_keeps_on_board_active config r state head rest :
  isGameOver state = false ->
  snake state = head :: rest ->
  on_board config state ->
  exists state', step config r state = Some state' /\ on_board config state'.
Proof.
  intros Hact Hsnake (Hne & Hcells & Hnodup & Hfood).
  rewrite (step_active config r state head rest Hact Hsnake). cbv zeta.
  set (cand := candidate config (direction state) head).
  destruct (hits_wall config cand) eqn:Hwall.
  { exists (game_over state). split; [done|]. by split_and!. }
  destruct (bites config state head) eqn:Hbite.
  { exists (game_over state). split; [done|]. by split_and!. }
  simpl orb. cbv iota.
  assert (Hhead : in_bounds config head = true).
  { apply Hcells. rewrite Hsnake. left. }
  assert (Hcand : in_bounds config cand = true) by by apply candidate_in_bounds.
  pose proof (in_bounds_integral _ _ Hcand) as Hint.
  pose proof (bites_false_not_in config state head Hint Hbite) as Hnot.
  fold cand in Hnot.
  eexists. split; [reflexivity|].
  destruct (willEat config state head) eqn:Heat; unfold on_board; cbn [snake food].
  - assert (Hgrown : NoDup (cand :: snake state)) by (by apply NoDup_cons).
    assert (Hon : forall p, p ∈ cand :: snake state -> in_bounds config p = true).
    { intros p [->|Hp]%elem_of_cons; auto. }
    split_and!; try done.
    destruct (decide (freeCells config (cand :: snake state) = [])) as [Hnil|Hfree].
    + left. by apply spawnFood_full.
    + right. apply (spawnFood_free config r) in Hfree.
      by apply elem_of_freeCells in Hfree.
  - cbn [bodyToCheck] in Hnot. rewrite Hsnake in *. rewrite removelast_cons_cons.
    assert (Hsub : forall p, p ∈ cand :: removelast (head :: rest) ->
                     p = cand \/ p ∈ head :: rest).
    { intros p [->|Hp%elem_of_removelast]%elem_of_cons; auto. }
    split_and!; try done.
    + intros p [->|Hp]%Hsub; auto.
    + apply NoDup_cons. split; [done|]. by apply NoDup_removelast.
    + destruct Hfood as [Hs|[Hfb Hfs]]; [by left|right].
      split; [done|]. intros [Hp|Hp]%Hsub; [|done].
      assert (willEat config state head = true); [|congruence].
      apply willEat_true. split; [done|]. by rewrite Hp.
Qed.


Lemma on_board_step config r state :
  on_board config state ->
  exists state', step config r state = Some state' /\ on_board config state'.
Proof.
  intros Hon. destruct (isGameOver state) eqn:Hover.
  - exists state. unfold step. by rewrite Hover.
  - destruct (snake state) as [|head rest] eqn:Hsnake; [by destruct Hon|].
    by eapply step_keeps_on_board_active.
Qed.

Lemma on_board_changeDirection config state dir :
  on_board config state -> on_board config (changeDirection state dir).
Proof. unfold changeDirection. by case_decide. Qed.

Lemma elem_of_initial_snake len sx sy p :
  p ∈ initial_snake len sx sy <->
  exists i, 0 <= i < len /\ p = Point.mk (Num (sx - i)) (Num sy).
Proof.
  unfold initial_snake. change (map ?f ?l) with (f <$> l).
  rewrite list_elem_of_fmap. setoid_rewrite elem_of_seqZ.
  split; intros (i & H1 & H2); exists i; split; (done || lia).
Qed.

Lemma NoDup_initial_snake len sx sy : NoDup (initial_snake len sx sy).
Proof.
  unfold initial_snake. change (map ?f ?l) with (f <$> l).
  apply NoDup_fmap_2; [|apply NoDup_seqZ].
  intros i j [= Heq]. lia.
Qed.

Lemma initial_snake_in_bounds config :
  (forall p, p ∈ snake (initial_state config first_draw) ->
             in_bounds config p = true) <-> fits config.
Proof.
  unfold fits, start_length. simpl.
  set (len := Z.max 3 (default 4 (initialLength config))).
  assert (Hlen : 3 <= len) by (unfold len; lia).
  setoid_rewrite elem_of_initial_snake. split.
  - intros Hall.
    assert (H0 : in_bounds config (Point.mk (Num (cols config / 2 - (len - 1)))
                                            (Num (rows config / 2))) = true).
    { apply Hall. exists (len - 1). split; [lia|done]. }
    apply in_bounds_true in H0 as (a & b & [= <- <-] & Ha & Hb). lia.
  - intros [Hfit Hrows] p (i & Hi & ->). apply in_bounds_true.
    eexists _, _. split; [done|].
    pose proof (Z.div_mod (cols config) 2). pose proof (Z.mod_pos_bound (cols config) 2).
    pose proof (Z.div_mod (rows config) 2). pose proof (Z.mod_pos_bound (rows config) 2).
    lia.
Qed.

Lemma spawnFood_sentinel_or_free config r body :
  spawnFood config r body = sentinel \/
  (in_bounds config (spawnFood config r body) = true /\ spawnFood config r body ∉ body).
Proof.
  destruct (decide (freeCells config body = [])) as [Hnil|Hfree].
  - left. by apply spawnFood_full.
  - right. apply (spawnFood_free config r) in Hfree.
    by apply elem_of_freeCells in Hfree.
Qed.

Lemma on_board_initial_state config r :
  on_board config (initial_state config r) <-> fits config.
Proof.
  split.
  - intros (_ & Hcells & _). by apply initial_snake_in_bounds.
  - intros Hfit. unfold on_board. split_and!.
    + simpl. intros Hnil. apply (f_equal length) in Hnil.
      pose proof (length_initial_snake (Z.max 3 (default 4 (initialLength config)))
                    (cols config / 2) (rows config / 2)) as Hl.
      rewrite Hnil in Hl. simpl in Hl. lia.
    + by apply initial_snake_in_bounds.
    + apply NoDup_initial_snake.
    + apply spawnFood_sentinel_or_free.
Qed.

(** Whether [createInitialState] returns depends on the configuration
    alone: if it did once, every restart does. *)
Lemma createInitialState_again config r r' start :
  createInitialState config r = Some start ->
  createInitialState config r' = Some (initial_state config r').
Proof. intros [Hlen _]%createInitialState_Some. by apply createInitialState_Some. Qed.

Lemma on_board_run config events :
  fits config ->
  Z.max 3 (default 4 (initialLength config)) < 2 ^ 32 ->
  forall state, on_board config state ->
  exists state', run config events state = Some state' /\ on_board config state'.
Proof.
  intros Hfit Hlen. induction events as [|e events IH]; intros state Hon;
    [by exists state|].
  simpl. destruct e as [r|dir|r]; simpl.
  - destruct (on_board_step config r state Hon) as (state' & -> & Hon'). by apply IH.
  - apply IH. by apply on_board_changeDirection.
  - rewrite (proj2 (createInitialState_Some config r _) (conj Hlen eq_refl)).
    apply IH. by apply on_board_initial_state.
Qed.



(** X2. The state that [createInitialState] returns has its snake on the
    board, free of self-overlap, with the food off the snake, exactly when
    the starting length is at most half the column count (rounded down)
    plus one and there is at least one row; otherwise some cell of the
    initial snake is off the board. *)
Theorem createInitialState_on_board (config : GameConfig) (r : random)
    (start : GameState) :
  createInitialState config r = Some start ->
  (on_board config start <-> fits config) /\
  (~ fits config ->
   exists p, p ∈ snake start /\ in_bounds config p = false).
Proof.
  intros [_ ->]%createInitialState_Some.
  split; [apply on_board_initial_state|].
  intros Hnot.
  destruct (decide (Forall (fun p => in_bounds config p = true)
                           (snake (initial_state config r)))) as [Hall|Hex].
  - destruct Hnot. apply initial_snake_in_bounds. by apply Forall_forall.
  - apply not_Forall_Exists, Exists_exists in Hex as (p & Hp & Hb); [|apply _].
    exists p. split; [done|]. by apply not_true_is_false.
Qed.

Lemma createInitialState_on_board_witness :
  (on_board narrow_board (initial_state narrow_board middle_draw)
   <-> fits narrow_board) /\
  (~ fits narrow_board ->
   exists p, p ∈ snake (initial_state narrow_board middle_draw) /\
             in_bounds narrow_board p = false).
Proof.
  apply (createInitialState_on_board narrow_board middle_draw). reflexivity.
Defined.

(** X3. When the initial snake fits, every sequence of ticks, turns and
    restarts from the state that [createInitialState] returned runs
    without an exception and ends in a state whose snake is on the board
    and free of self-overlap and whose food is the sentinel or a cell off
    the snake. *)
Theorem play_keeps_on_board (config : GameConfig) (r : random) (events : list event)
    (start : GameState) :
  fits config ->
  createInitialState config r = Some start ->
  exists state',
    run config events start = Some state' /\
    on_board config state'.
Proof.
  intros Hfit [Hlen ->]%createInitialState_Some.
  apply on_board_run; [done..|]. by apply on_board_initial_state.
Qed.

Lemma play_keeps_on_board_witness :
  exists state',
    run twelve_board [Tick middle_draw; Turn up; Tick first_draw; Restart middle_draw]
        (initial_state twelve_board middle_draw) = Some state' /\
    on_board twelve_board state'.
Proof.
  apply (play_keeps_on_board twelve_board middle_draw).
  - split; apply Z.leb_le; reflexivity.
  - reflexivity.
Defined.


(** ** Score, length and tick along a game *)

(** A tick leaves length and score alone, or adds a cell and ten points
    (rounded as a sum of doubles is). *)
Lemma step_score_length config r state state' :
  step config r state = Some state' ->
  (length (snake state') = length (snake state) /\ score state' = score state) \/
  (length (snake state') = S (length (snake state)) /\
   score state' = round_double (score state + 10)).
Proof.
  destruct (isGameOver state) eqn:Hover.
  { unfold step. rewrite Hover. intros [= <-]. by left. }
  destruct (snake state) as [|head rest] eqn:Hsnake.
  { unfold step. by rewrite Hover, Hsnake. }
  rewrite (step_active config r state head rest Hover Hsnake). cbv zeta.
  destruct (hits_wall config _ || bites config state head).
  { intros [= <-]. left. simpl. by rewrite Hsnake. }
  intros [= <-]. rewrite Hsnake.
  destruct (willEat config state head); cbn [snake score].
  - by right.
  - left. split; [|done]. cbn [length]. by rewrite length_removelast_cons.
Qed.

Lemma step_direction config r state state' :
  step config r state = Some state' -> direction state' = direction state.
Proof.
  destruct (isGameOver state) eqn:Hover.
  { unfold step. rewrite Hover. by intros [= <-]. }
  destruct (snake state) as [|head rest] eqn:Hsnake.
  { unfold step. by rewrite Hover, Hsnake. }
  rewrite (step_active config r state head rest Hover Hsnake). cbv zeta.
  destruct (hits_wall config _ || bites config state head); by intros [= <-].
Qed.

Lemma step_returns config r state :
  snake state <> [] -> is_Some (step config r state).
Proof.
  intros Hne. unfold step. destruct (isGameOver state); [done|].
  destruct (snake state) as [|head rest]; [done|]. cbv zeta.
  destruct (hits_wall config _); [done|]. by destruct (existsb _ _).
Qed.

Lemma changeDirection_fields state dir :
  snake (changeDirection state dir) = snake state /\
  food (changeDirection state dir) = food state /\
  score (changeDirection state dir) = score state /\
  tick (changeDirection state dir) = tick state /\
  isGameOver (changeDirection state dir) = isGameOver state.
Proof. unfold changeDirection. by case_decide. Qed.





Lemma score_tracks_growth_run config events :
  Z.max 3 (default 4 (initialLength config)) < 2 ^ 32 ->
  forall state,
  score_tracks_growth config state ->
  exists state', run config events state = Some state' /\
                 score_tracks_growth config state'.
Proof.
  intros H32.
  assert (H3 : 3 <= start_length config) by (unfold start_length; lia).
  induction events as [|e events IH]; intros state [Hlen Hscore]; [by exists state|].
  simpl. destruct e as [r|dir|r]; simpl.
  - destruct (step_returns config r state) as [mid Hmid].
    { intros Hnil. rewrite Hnil in Hlen. simpl in Hlen. lia. }
    rewrite Hmid. apply IH.
    apply step_score_length in Hmid as [[Hl Hs]|[Hl Hs]]; unfold score_tracks_growth.
    + rewrite Hl, Hs. done.
    + rewrite Hl, Hs. split; [lia|]. intros Hfit.
      rewrite Hscore by lia. rewrite round_double_exact by lia. lia.
  - apply IH. destruct (changeDirection_fields state dir) as (Hs & _ & Hsc & _).
    unfold score_tracks_growth. by rewrite Hs, Hsc.
  - rewrite (proj2 (createInitialState_Some config r _) (conj H32 eq_refl)).
    apply IH. unfold score_tracks_growth. simpl.
    rewrite length_initial_snake by lia. unfold start_length. lia.
Qed.

(** X5. Every sequence of ticks, turns and restarts from a state that
    [createInitialState] returned runs without an exception; at its end
    the snake has at least its starting length, which is at least three,
    and the score is ten times the number of cells grown since the last
    start, as long as that number is at most 2^53. *)
Theorem play_score (config : GameConfig) (r : random) (events : list event)
    (start : GameState) :
  createInitialState config r = Some start ->
  exists state',
    run config events start = Some state' /\
    3 <= start_length config <= Z.of_nat (length (snake state')) /\
    (10 * (Z.of_nat (length (snake state')) - start_length config) <= 2 ^ 53 ->
     score state' = 10 * (Z.of_nat (length (snake state')) - start_length config)).
Proof.
  intros [H32 ->]%createInitialState_Some.
  destruct (score_tracks_growth_run config events H32 (initial_state config r))
    as (state' & Hrun & Hlen & Hscore).
  { unfold score_tracks_growth. simpl.
    rewrite length_initial_snake by lia. unfold start_length. lia. }
  exists state'. split; [done|]. split; [|done].
  unfold start_length in *. lia.
Qed.

Lemma play_score_witness :
  exists state',
    run twelve_board [Tick middle_draw; Turn up; Tick first_draw; Restart middle_draw]
        (initial_state twelve_board middle_draw) = Some state' /\
    3 <= start_length twelve_board <= Z.of_nat (length (snake state')) /\
    (10 * (Z.of_nat (length (snake state')) - start_length twelve_board) <= 2 ^ 53 ->
     score state' = 10 * (Z.of_nat (length (snake state')) - start_length twelve_board)).
Proof. apply (play_score twelve_board middle_draw). reflexivity. Defined.

Lemma step_tick config r state state' :
  step config r state = Some state' ->
  (isGameOver state = false /\ isGameOver state' = false /\
   tick state' = round_double (tick state + 1)) \/
  (isGameOver state' = true /\ tick state' = tick state).
Proof.
  destruct (isGameOver state) eqn:Hover.
  { unfold step. rewrite Hover. intros [= <-]. by right. }
  destruct (snake state) as [|head rest] eqn:Hsnake.
  { unfold step. by rewrite Hover, Hsnake. }
  rewrite (step_active config r state head rest Hover Hsnake). cbv zeta.
  destruct (hits_wall config _ || bites config state head); intros [= <-].
  - by right.
  - by left.
Qed.

Lemma tick_counts_run config events :
  forall n state state',
  tick_counts n state ->
  run config events state = Some state' ->
  tick_counts (foldl (fun n e => match e with
                                 | Tick _ => n + 1
                                 | Turn _ => n
                                 | Restart _ => 0
                                 end) n events) state'.
Proof.
  induction events as [|e events IH]; intros n state state' Hn Hrun.
  { by injection Hrun as <-. }
  simpl in Hrun. cbn [foldl]. destruct e as [r|dir|r]; simpl in Hrun.
  - destruct (step config r state) as [mid|] eqn:Hstep; [|done].
    eapply IH; [|exact Hrun]. destruct Hn as (Hle & H53 & Heq).
    apply step_tick in Hstep as [(Hs & Hm & Ht)|[Hm Ht]]; unfold tick_counts.
    + rewrite Ht. destruct (Z.eq_dec (tick state) (2 ^ 53)) as [Htop|Hlow].
      * rewrite Htop, round_double_stuck. split; [lia|]. split; [lia|].
        intros _ Hn53. lia.
      * rewrite round_double_exact by lia. split; [lia|]. split; [lia|].
        intros _ Hn53. rewrite (Heq Hs) by lia. done.
    + rewrite Ht, Hm. split; [lia|]. split; [lia|done].
  - eapply IH; [|exact Hrun].
    destruct (changeDirection_fields state dir) as (_ & _ & _ & Ht & Ho).
    unfold tick_counts. by rewrite Ht, Ho.
  - destruct (createInitialState config r) as [fresh|] eqn:Hinit; [|done].
    apply createInitialState_Some in Hinit as [_ ->].
    eapply IH; [|exact Hrun]. unfold tick_counts. simpl. split; [lia|]. split; [lia|done].
Qed.

(** X6. At the end of any sequence of ticks, turns and restarts from a
    state that [createInitialState] returned, the tick is at most the
    number of ticks since the last restart; and while the game is not over
    and that number is at most 2^53, the tick is exactly that number:
    every tick of a running game is counted, and none after the game has
    ended. *)
Theorem play_tick (config : GameConfig) (r : random) (events : list event)
    (start : GameState) :
  createInitialState config r = Some start ->
  exists state',
    run config events start = Some state' /\
    0 <= tick state' <= ticks_since_restart events /\
    (isGameOver state' = false ->
     ticks_since_restart events <= 2 ^ 53 ->
     tick state' = ticks_since_restart events).
Proof.
  intros [H32 ->]%createInitialState_Some.
  destruct (score_tracks_growth_run config events H32 (initial_state config r))
    as (state' & Hrun & _).
  { unfold score_tracks_growth. simpl.
    rewrite length_initial_snake by lia. unfold start_length. lia. }
  exists state'. split; [done|].
  apply (tick_counts_run config events 0 _ _) in Hrun as (Hle & _ & Heq); [done|].
  unfold tick_counts. simpl. split; [lia|]. split; [lia|done].
Qed.

Lemma play_tick_witness :
  exists state',
    run twelve_board [Tick middle_draw; Turn up; Tick first_draw]
        (initial_state twelve_board middle_draw) = Some state' /\
    0 <= tick state'
      <= ticks_since_restart [Tick middle_draw; Turn up; Tick first_draw] /\
    (isGameOver state' = false ->
     ticks_since_restart [Tick middle_draw; Turn up; Tick first_draw] <= 2 ^ 53 ->
     tick state' = ticks_since_restart [Tick middle_draw; Turn up; Tick first_draw]).
Proof. apply (play_tick twelve_board middle_draw). reflexivity. Defined.

(** ** After the game is over *)

Lemma turns_only_fields events :
  forall state,
  snake (turns_only events state) = snake state /\
  food (turns_only events state) = food state /\
  score (turns_only events state) = score state /\
  tick (turns_only events state) = tick state /\
  isGameOver (turns_only events state) = isGameOver state.
Proof.
  unfold turns_only. induction events as [|e events IH]; intros state; [done|].
  cbn [foldl]. destruct e as [r|dir|r]; try apply IH.
  destruct (IH (changeDirection state dir)) as (-> & -> & -> & -> & ->).
  apply changeDirection_fields.
Qed.

(** X7. Once the game is over, a sequence of ticks and turns does no more
    than its turns alone: it runs through, the snake, the food, the score
    and the tick stay as they are and the game stays over; only the
    direction still follows the turns. *)
Theorem terminal_run (config : GameConfig) (events : list event) (state : GameState) :
  isGameOver state = true ->
  forallb (fun e => negb (is_restart e)) events = true ->
  run config events state = Some (turns_only events state) /\
  snake (turns_only events state) = snake state /\
  food (turns_only events state) = food state /\
  score (turns_only events state) = score state /\
  tick (turns_only events state) = tick state /\
  isGameOver (turns_only events state) = true.
Proof.
  intros Hover Hno. split; [|by rewrite <- Hover; apply turns_only_fields].
  revert state Hover Hno. unfold turns_only.
  induction events as [|e events IH]; intros state Hover Hno; [done|].
  simpl in Hno. apply andb_true_iff in Hno as [He Hno].
  cbn [run foldl]. destruct e as [r|dir|r]; [| |done]; simpl.
  - unfold step. rewrite Hover. by apply IH.
  - apply IH; [|done].
    destruct (changeDirection_fields state dir) as (_ & _ & _ & _ & ->). done.
Qed.

Lemma terminal_run_witness :
  run open_board [Tick middle_draw; Turn up; Tick first_draw] lost_game
    = Some (turns_only [Tick middle_draw; Turn up; Tick first_draw] lost_game) /\
  snake (turns_only [Tick middle_draw; Turn up; Tick first_draw] lost_game)
    = snake lost_game /\
  food (turns_only [Tick middle_draw; Turn up; Tick first_draw] lost_game)
    = food lost_game /\
  score (turns_only [Tick middle_draw; Turn up; Tick first_draw] lost_game)
    = score lost_game /\
  tick (turns_only [Tick middle_draw; Turn up; Tick first_draw] lost_game)
    = tick lost_game /\
  isGameOver (turns_only [Tick middle_draw; Turn up; Tick first_draw] lost_game) = true.
Proof.
  apply (terminal_run open_board [Tick middle_draw; Turn up; Tick first_draw] lost_game);
    reflexivity.
Defined.


(** ** Turning *)




Lemma opposite_inj d1 d2 : opposite d1 = opposite d2 -> d1 = d2.
Proof. by destruct d1, d2. Qed.




(** X9. Two calls of [changeDirection] between two ticks can reverse the
    snake: after a turn to the side and a turn to the opposite of the
    original direction, the direction is that opposite; if the second cell
    of the snake lies directly behind the head and the snake has at least
    three cells, the next [step] ends the game without counting a tick. *)
Theorem double_turn_bites_neck (config : GameConfig) (r : random) (state : GameState)
    (head neck : Point.t) (rest : list Point.t) (side : Direction) :
  isGameOver state = false ->
  snake state = head :: neck :: rest ->
  rest <> [] ->
  in_bounds config neck = true ->
  neck = candidate config (opposite (direction state)) head ->
  side <> direction state ->
  side <> opposite (direction state) ->
  direction (changeDirection (changeDirection state side) (opposite (direction state)))
    = opposite (direction state) /\
  exists state',
    step config r
         (changeDirection (changeDirection state side) (opposite (direction state)))
      = Some state' /\
    isGameOver state' = true /\
    snake state' = snake state /\
    tick state' = tick state.
Proof.
  intros Hact Hsnake Hrest Hneck Hbehind Hside1 Hside2.
  remember (opposite (direction state)) as back eqn:Hback.
  assert (Hturned : changeDirection (changeDirection state side) back
                    = set_direction state back).
  { assert (Hfirst : changeDirection state side = set_direction state side).
    { unfold changeDirection. by rewrite decide_False by congruence. }
    rewrite Hfirst. unfold changeDirection. simpl.
    rewrite decide_False; [done|].
    rewrite Hback. by intros Hopp%opposite_inj. }
  rewrite Hturned. split; [done|].
  assert (Hwall : hits_wall config neck = false).
  { apply hits_wall_false; [by eapply in_bounds_integral|by right]. }
  assert (Hbite : bites config (set_direction state back) head = true).
  { unfold bites. simpl. rewrite <- Hbehind, Hsnake. apply existsb_elem_of.
    exists neck. split.
    - destruct (willEat _ _ _); simpl; [right; left|].
      destruct rest as [|c rest]; [done|]. right. left.
    - apply same_cell_true. split; [by eapply in_bounds_integral|done]. }
  rewrite (step_active config r (set_direction state back) head (neck :: rest));
    [|done..]. cbv zeta. simpl direction. rewrite <- Hbehind, Hwall, Hbite.
  eexists. split; [reflexivity|]. done.
Qed.

Lemma double_turn_bites_neck_witness :
  direction (changeDirection (changeDirection heading_right up)
                             (opposite (direction heading_right)))
    = opposite (direction heading_right) /\
  exists state',
    step twelve_board middle_draw
         (changeDirection (changeDirection heading_right up)
                          (opposite (direction heading_right)))
      = Some state' /\
    isGameOver state' = true /\
    snake state' = snake heading_right /\
    tick state' = tick heading_right.
Proof.
  apply (double_turn_bites_neck twelve_board middle_draw heading_right
           (Point.mk (Num 6) (Num 6)) (Point.mk (Num 5) (Num 6))
           [Point.mk (Num 4) (Num 6)] up);
    done.
Defined.


(** ** More on food placement *)

Lemma StronglySorted_NoDup {A} (R : relation A) l :
  (forall x, ~ R x x) -> StronglySorted R l -> NoDup l.
Proof.
  intros Hirr. induction 1 as [|x l Hl IH Hx]; constructor; [|done].
  rewrite Forall_forall in Hx. intros Hin. by apply (Hirr x), Hx.
Qed.

Lemma row_major_lt_irrefl p : ~ row_major_lt p p.
Proof. intros (a & b & c & d & -> & [= <- <-] & H). lia. Qed.

Lemma NoDup_board_cells config : NoDup (board_cells config).
Proof.
  eapply StronglySorted_NoDup; [apply row_major_lt_irrefl|apply board_cells_sorted].
Qed.

Lemma length_board_cells config :
  0 <= cols config -> 0 <= rows config ->
  Z.of_nat (length (board_cells config)) = cols config * rows config.
Proof.
  intros Hc Hr. unfold board_cells.
  assert (Hgen : forall l : list Z,
            length (l ≫= row_cells (cols config))
            = (length l * Z.to_nat (cols config))%nat).
  { induction l as [|j l IH]; [done|].
    rewrite bind_cons, length_app, IH. unfold row_cells.
    rewrite length_fmap, length_seqZ. simpl. lia. }
  rewrite Hgen, length_seqZ. lia.
Qed.

(** The cells of the board split into the free ones and those of a snake
    that lies on the board without crossing itself. *)
Lemma length_freeCells config body :
  0 <= cols config -> 0 <= rows config ->
  NoDup body ->
  (forall p, p ∈ body -> in_bounds config p = true) ->
  Z.of_nat (length (freeCells config body)) + Z.of_nat (length body)
  = cols config * rows config.
Proof.
  intros Hc Hr Hnd Hon.
  rewrite <- (length_board_cells config Hc Hr).
  pose proof (filter_app_complement (fun p => p ∉ body) (board_cells config)) as Hsplit.
  apply Permutation_length in Hsplit. rewrite length_app in Hsplit.
  assert (Hperm : filter (fun p : Point.t => ~ (p ∉ body)) (board_cells config) ≡ₚ body).
  { apply NoDup_Permutation; [apply NoDup_filter, NoDup_board_cells|done|].
    intros p. rewrite list_elem_of_filter, elem_of_board_cells. split.
    - intros [Hp _]. by apply dec_stable.
    - intros Hp. split; [by intros ?|auto]. }
  apply Permutation_length in Hperm.
  rewrite freeCells_filter. lia.
Qed.

(** X11. For a snake that lies on the board without crossing itself, the
    free cells and the snake's cells add up to the cells of the board; so
    the board is full, and [spawnFood] answers with the sentinel, exactly
    when the snake has as many cells as the board. *)
Theorem free_cells_count (config : GameConfig) (r : random) (body : list Point.t) :
  0 <= cols config -> 0 <= rows config ->
  NoDup body ->
  (forall p, p ∈ body -> in_bounds config p = true) ->
  Z.of_nat (length (freeCells config body)) + Z.of_nat (length body)
    = cols config * rows config /\
  (spawnFood config r body = sentinel <->
   Z.of_nat (length body) = cols config * rows config).
Proof.
  intros Hc Hr Hnd Hon.
  pose proof (length_freeCells config body Hc Hr Hnd Hon) as Hlen.
  split; [done|]. split.
  - intros Hs. destruct (freeCells config body) as [|c l] eqn:Hfree; [simpl in *; lia|].
    assert (Hin : spawnFood config r body ∈ freeCells config body).
    { apply spawnFood_free. by rewrite Hfree. }
    apply elem_of_freeCells in Hin as [Hin _].
    by rewrite Hs, sentinel_out_of_bounds in Hin.
  - intros Hfull. apply spawnFood_full.
    destruct (freeCells config body); [done|simpl in *; lia].
Qed.

Lemma free_cells_count_witness :
  Z.of_nat (length (freeCells open_board (snake about_to_eat)))
    + Z.of_nat (length (snake about_to_eat))
    = cols open_board * rows open_board /\
  (spawnFood open_board middle_draw (snake about_to_eat) = sentinel <->
   Z.of_nat (length (snake about_to_eat)) = cols open_board * rows open_board).
Proof.
  apply (free_cells_count open_board middle_draw (snake about_to_eat)).
  - simpl. lia.
  - simpl. lia.
  - simpl. by apply (bool_decide_unpack _).
  - intros p Hp. simpl in Hp.
    repeat (apply elem_of_cons in Hp as [->|Hp]; [reflexivity|]).
    by apply not_elem_of_nil in Hp.
Defined.


(** ** The full board *)

Lemma step_food config r state state' :
  step config r state = Some state' ->
  (food state' = food state /\ length (snake state') = length (snake state)) \/
  food state' = spawnFood config r (snake state').
Proof.
  destruct (isGameOver state) eqn:Hover.
  { unfold step. rewrite Hover. intros [= <-]. by left. }
  destruct (snake state) as [|head rest] eqn:Hsnake.
  { unfold step. by rewrite Hover, Hsnake. }
  rewrite (step_active config r state head rest Hover Hsnake). cbv zeta.
  destruct (hits_wall config _ || bites config state head); intros [= <-].
  { left. simpl. by rewrite Hsnake. }
  destruct (willEat config state head); cbn [snake food].
  - by right.
  - left. split; [done|]. rewrite Hsnake. cbn [length].
    by rewrite length_removelast_cons.
Qed.

Lemma on_board_sizes config state :
  on_board config state -> 0 <= cols config /\ 0 <= rows config.
Proof.
  intros (Hne & Hcells & _).
  destruct (snake state) as [|head rest]; [done|].
  assert (Hh : in_bounds config head = true) by (apply Hcells; left).
  apply in_bounds_true in Hh as (a & b & _ & Ha & Hb). lia.
Qed.

Lemma on_board_spawnFood config r state :
  on_board config state ->
  spawnFood config r (snake state) = sentinel <->
  Z.of_nat (length (snake state)) = cols config * rows config.
Proof.
  intros Hon. pose proof (on_board_sizes _ _ Hon) as [Hc Hr].
  destruct Hon as (_ & Hcells & Hnd & _).
  pose proof (length_freeCells config (snake state) Hc Hr Hnd Hcells) as Hlen.
  split.
  - intros Hs.
    destruct (freeCells config (snake state)) as [|c l] eqn:Hfree; [simpl in *; lia|].
    assert (Hin : spawnFood config r (snake state) ∈ freeCells config (snake state)).
    { apply spawnFood_free. by rewrite Hfree. }
    apply elem_of_freeCells in Hin as [Hin _].
    by rewrite Hs, sentinel_out_of_bounds in Hin.
  - intros Hfull. apply spawnFood_full.
    destruct (freeCells config (snake state)); [done|simpl in *; lia].
Qed.

Lemma food_tells_full_run config events :
  fits config ->
  Z.max 3 (default 4 (initialLength config)) < 2 ^ 32 ->
  forall state,
  on_board config state -> food_tells_full config state ->
  exists state', run config events state = Some state' /\
                 on_board config state' /\ food_tells_full config state'.
Proof.
  intros Hfit H32. induction events as [|e events IH]; intros state Hon Hfood;
    [by exists state|].
  simpl. destruct e as [r|dir|r]; simpl.
  - destruct (on_board_step config r state Hon) as (mid & Hstep & Hmid).
    rewrite Hstep. apply IH; [done|].
    apply step_food in Hstep as [[Hf Hl]|Hf]; unfold food_tells_full in *.
    + by rewrite Hf, Hl.
    + rewrite Hf. by apply on_board_spawnFood.
  - apply IH; [by apply on_board_changeDirection|].
    destruct (changeDirection_fields state dir) as (Hs & Hf & _).
    unfold food_tells_full. by rewrite Hs, Hf.
  - rewrite (proj2 (createInitialState_Some config r _) (conj H32 eq_refl)).
    assert (Hinit : on_board config (initial_state config r))
      by by apply on_board_initial_state.
    apply IH; [done|]. unfold food_tells_full.
    change (food (initial_state config r))
      with (spawnFood config r (snake (initial_state config r))).
    by apply on_board_spawnFood.
Qed.

(** X12. When the initial snake fits, at the end of every sequence of
    ticks, turns and restarts from the state that [createInitialState]
    returned the food is the sentinel exactly when the snake has as many
    cells as the board; in every other case the food is a cell of the
    board off the snake. *)
Theorem play_food_sentinel (config : GameConfig) (r : random) (events : list event)
    (start : GameState) :
  fits config ->
  createInitialState config r = Some start ->
  exists state',
    run config events start = Some state' /\
    (food state' = sentinel <->
     Z.of_nat (length (snake state')) = cols config * rows config) /\
    (food state' <> sentinel ->
     in_bounds config (food state') = true /\ food state' ∉ snake state').
Proof.
  intros Hfit [H32 ->]%createInitialState_Some.
  assert (Hinit : on_board config (initial_state config r))
    by by apply on_board_initial_state.
  destruct (food_tells_full_run config events Hfit H32 (initial_state config r))
    as (state' & Hrun & Hon & Hfood); [done| |].
  { unfold food_tells_full.
    change (food (initial_state config r))
      with (spawnFood config r (snake (initial_state config r))).
    by apply on_board_spawnFood. }
  exists state'. split; [done|]. split; [done|].
  intros Hne. by destruct Hon as (_ & _ & _ & [Hs|Hf]).
Qed.

Lemma play_food_sentinel_witness :
  exists state',
    run twelve_board [Tick middle_draw; Turn up; Tick first_draw]
        (initial_state twelve_board middle_draw) = Some state' /\
    (food state' = sentinel <->
     Z.of_nat (length (snake state')) = cols twelve_board * rows twelve_board) /\
    (food state' <> sentinel ->
     in_bounds twelve_board (food state') = true /\ food state' ∉ snake state').
Proof.
  apply (play_food_sentinel twelve_board middle_draw).
  - split; apply Z.leb_le; reflexivity.
  - reflexivity.
Defined.

(** X13. On a full board, that is when the snake of an active state lies
    on the board without crossing itself and covers every cell, [step]
    keeps the game going exactly when the candidate head is the tail cell;
    the snake then turns by one cell and still covers the board.  Every
    other move ends the game. *)
Theorem full_board_follows_tail (config : GameConfig) (r : random) (state : GameState)
    (head : Point.t) (rest body : list Point.t) (tail : Point.t) :
  on_board config state ->
  board_full config (snake state) ->
  isGameOver state = false ->
  snake state = head :: rest ->
  snake state = body ++ [tail] ->
  exists state',
    step config r state = Some state' /\
    (isGameOver state' = false <-> candidate config (direction state) head = tail) /\
    (isGameOver state' = false -> snake state' = tail :: body /\ food state' = sentinel).
Proof.
  intros Hon Hfull Hact Hsnake Hbt.
  pose proof Hon as (_ & Hcells & Hnd & Hfood).
  assert (Hhead : in_bounds config head = true).
  { apply Hcells. rewrite Hsnake. left. }
  assert (Htail : in_bounds config tail = true).
  { apply Hcells. rewrite Hbt, elem_of_app. right. left. }
  assert (Hsent : food state = sentinel).
  { destruct Hfood as [|[(a & b & Hf & Ha & Hb)%in_bounds_true Hnot]]; [done|].
    destruct Hnot. rewrite Hf. by apply Hfull. }
  assert (Heat : willEat config state head = false).
  { apply in_bounds_true in Hhead as (hx & hy & -> & Hx & Hy).
    unfold willEat. rewrite Hsent. apply candidate_not_sentinel; lia. }
  set (cand := candidate config (direction state) head).
  assert (Hbites : bites config state head = true <-> cand ∈ body /\ integral cand = true).
  { rewrite (bites_cells config state head body tail Hbt). fold cand. split.
    - intros (p & [Hint Heq]%same_cell_true & [Hp|[Hw _]]); [|congruence].
      subst p. done.
    - intros [Hp Hint]. exists cand. split; [by apply same_cell_true|by left]. }
  assert (Hsplit : NoDup (body ++ [tail])) by by rewrite <- Hbt.
  apply NoDup_app in Hsplit as (_ & Hdisj & _).
  rewrite (step_active config r state head rest Hact Hsnake). cbv zeta. fold cand.
  rewrite Heat.
  destruct (hits_wall config cand) eqn:Hwall.
  { exists (game_over state). split; [done|]. simpl. split; [|done]. split; [done|].
    intros Hct. assert (Hok : hits_wall config tail = false).
    { apply hits_wall_false; [by eapply in_bounds_integral|by right]. }
    rewrite <- Hct in Hok. congruence. }
  assert (Hcand : in_bounds config cand = true) by by apply candidate_in_bounds.
  assert (Hcov : cand ∈ body ++ [tail]).
  { rewrite <- Hbt. apply in_bounds_true in Hcand as (a & b & -> & Ha & Hb).
    by apply Hfull. }
  destruct (bites config state head) eqn:Hbite; simpl orb; cbv iota.
  - exists (game_over state). split; [done|]. simpl. split; [|done]. split; [done|].
    intros Hct. destruct (proj1 Hbites eq_refl) as [Hin _].
    destruct (Hdisj cand Hin). rewrite Hct. left.
  - eexists. split; [reflexivity|]. cbn [isGameOver snake food].
    assert (Hct : cand = tail).
    { apply elem_of_app in Hcov as [Hin|Hin%list_elem_of_singleton]; [|done].
      assert (false = true); [|done].
      apply Hbites. split; [done|by eapply in_bounds_integral]. }
    split; [done|]. intros _. split; [|done].
    rewrite Hbt, Hct. destruct body as [|b body]; [done|].
    change (tail :: (b :: body) ++ [tail]) with ((tail :: b :: body) ++ [tail]).
    by rewrite removelast_last.
Qed.

Lemma full_board_follows_tail_witness :
  exists state',
    step small_board middle_draw full_circle = Some state' /\
    (isGameOver state' = false <->
     candidate small_board (direction full_circle) (Point.mk (Num 0) (Num 0))
     = Point.mk (Num 0) (Num 1)) /\
    (isGameOver state' = false ->
     snake state' = [Point.mk (Num 0) (Num 1); Point.mk (Num 0) (Num 0);
                     Point.mk (Num 1) (Num 0); Point.mk (Num 1) (Num 1)] /\
     food state' = sentinel).
Proof.
  apply (full_board_follows_tail small_board middle_draw full_circle
           (Point.mk (Num 0) (Num 0))
           [Point.mk (Num 1) (Num 0); Point.mk (Num 1) (Num 1); Point.mk (Num 0) (Num 1)]
           [Point.mk (Num 0) (Num 0); Point.mk (Num 1) (Num 0); Point.mk (Num 1) (Num 1)]
           (Point.mk (Num 0) (Num 1))).
  - unfold on_board. split_and!.
    + discriminate.
    + intros p Hp. simpl in Hp.
      repeat (apply elem_of_cons in Hp as [->|Hp]; [reflexivity|]).
      by apply not_elem_of_nil in Hp.
    + simpl. by apply (bool_decide_unpack _).
    + by left.
  - intros a b Ha Hb. simpl in *.
    assert (Hab : (a = 0 \/ a = 1) /\ (b = 0 \/ b = 1)) by lia.
    destruct Hab as [[-> | ->] [-> | ->]]; by apply (bool_decide_unpack _).
  - reflexivity.
  - reflexivity.
  - reflexivity.
Defined.

(** X14. For a state whose food is the sentinel or a cell of the board,
    the renderer's guard [state.food.x >= 0] draws the food exactly when it
    is not the sentinel. *)
Theorem food_drawn_unless_sentinel (config : GameConfig) (state : GameState) :
  food state = sentinel \/ in_bounds config (food state) = true ->
  food_drawn state = true <-> food state <> sentinel.
Proof.
  intros [Hs|(a & b & Hf & Ha & Hb)%in_bounds_true]; unfold food_drawn.
  - rewrite Hs. simpl. split; [discriminate|done].
  - rewrite Hf. simpl. split.
    + intros _ [= -> _]. lia.
    + intros _. apply Z.leb_le. lia.
Qed.

Lemma food_drawn_unless_sentinel_witness :
  food_drawn about_to_eat = true <-> food about_to_eat <> sentinel.
Proof.
  apply (food_drawn_unless_sentinel open_board about_to_eat).
  right. reflexivity.
Defined.


(** ** Starting a game from the component *)


Lemma head_initial_state config r :
  exists rest,
    snake (initial_state config r)
    = Point.mk (Num (cols config / 2)) (Num (rows config / 2)) :: rest.
Proof.
  simpl. unfold initial_snake.
  rewrite seqZ_cons by lia. simpl. rewrite Z.sub_0_r. eauto.
Qed.

(** X16. When the initial snake fits, the first tick of a new game never
    ends it: from the state that [createInitialState] returned, [step]
    moves the head one cell to the right of the board's centre, the tick
    becomes one and the snake keeps or gains a cell. *)
Theorem first_tick_is_safe (config : GameConfig) (r r' : random) (start : GameState) :
  fits config ->
  createInitialState config r = Some start ->
  exists state' rest,
    step config r' start = Some state' /\
    isGameOver state' = false /\
    tick state' = 1 /\
    snake state'
    = Point.mk (Num (cols config / 2 + 1)) (Num (rows config / 2)) :: rest.
Proof.
  intros Hfit [_ Hstart]%createInitialState_Some. pose proof Hfit as [Hlen Hrows].
  assert (H3 : 3 <= start_length config) by (unfold start_length; lia).
  pose proof (Z.div_mod (cols config) 2). pose proof (Z.mod_pos_bound (cols config) 2).
  pose proof (Z.div_mod (rows config) 2). pose proof (Z.mod_pos_bound (rows config) 2).
  destruct (head_initial_state config r) as [rest Hsnake]. rewrite <- Hstart in Hsnake.
  assert (Hdir : direction start = right) by by rewrite Hstart.
  assert (Htick : tick start = 0) by by rewrite Hstart.
  assert (Hact : isGameOver start = false) by by rewrite Hstart.
  assert (Hcells : forall p, p ∈ snake start ->
            exists i, 0 <= i /\ p = Point.mk (Num (cols config / 2 - i))
                                            (Num (rows config / 2))).
  { rewrite Hstart. intros p (i & Hi & ->)%elem_of_initial_snake.
    exists i. split; [lia|done]. }
  clear Hstart.
  set (hx := cols config / 2) in *. set (hy := rows config / 2) in *.
  assert (Hcand : candidate config (direction start) (Point.mk (Num hx) (Num hy))
                  = Point.mk (Num (hx + 1)) (Num hy)).
  { rewrite Hdir.
    destruct (truthy (wrap config)) eqn:Hw.
    - rewrite (candidate_wrap _ _ _ _ Hw). simpl.
      destruct (wrap_coord_mod (hx + 1) (cols config)) as (-> & -> & _); [lia|lia|].
      destruct (wrap_coord_mod (hy + 0) (rows config)) as (-> & -> & _); [lia|lia|].
      rewrite !Z.mod_small by lia. f_equal; f_equal; lia.
    - rewrite (candidate_nowrap _ _ _ _ Hw). simpl. f_equal; f_equal; lia. }
  assert (Hwall : hits_wall config (Point.mk (Num (hx + 1)) (Num hy)) = false).
  { apply hits_wall_false; [done|]. right. apply in_bounds_true.
    eexists _, _. split; [done|]. lia. }
  assert (Hbite : bites config start (Point.mk (Num hx) (Num hy)) = false).
  { apply not_true_is_false. unfold bites. rewrite Hcand.
    intros (p & Hp & Hc)%existsb_elem_of.
    apply same_cell_true in Hc as [_ ->].
    assert (Hin : Point.mk (Num (hx + 1)) (Num hy) ∈ snake start).
    { destruct (willEat config start _); simpl in Hp; [done|].
      by apply elem_of_removelast. }
    apply Hcells in Hin as (i & Hi & [= Heq]). lia. }
  rewrite (step_active config r' start _ rest Hact Hsnake). cbv zeta.
  rewrite Hcand, Hwall, Hbite, Htick. simpl orb. cbv iota.
  change (round_double (0 + 1)) with 1.
  destruct (willEat config start _); eexists _, _;
    (split; [reflexivity|]); cbn [isGameOver tick snake]; split_and!; try done.
  rewrite Hsnake. by rewrite removelast_cons_cons.
Qed.

Lemma first_tick_is_safe_witness :
  exists state' rest,
    step twelve_board first_draw (initial_state twelve_board middle_draw)
      = Some state' /\
    isGameOver state' = false /\
    tick state' = 1 /\
    snake state'
    = Point.mk (Num (cols twelve_board / 2 + 1)) (Num (rows twelve_board / 2)) :: rest.
Proof.
  apply (first_tick_is_safe twelve_board middle_draw first_draw).
  - split; apply Z.leb_le; reflexivity.
  - reflexivity.
Defined.

(** ** The game loop's interval *)

(** X17. For a speed of at least one tick per second the interval is
    between 30 and 1000 milliseconds; up to 33 it is the largest whole
    number of milliseconds that fits [speed] times into a second, and from
    34 on it is 30 whatever the speed. *)
Theorem ms_bounds (speed : Z) :
  1 <= speed ->
  exists m,
    ms speed = Some m /\
    30 <= m <= 1000 /\
    (speed <= 33 -> m * speed <= 1000 < (m + 1) * speed) /\
    (34 <= speed -> m = 30).
Proof.
  intros Hs. unfold ms. destruct (Z.eqb_spec speed 0) as [|_]; [lia|].
  eexists. split; [reflexivity|].
  pose proof (Z.div_mod 1000 speed). pose proof (Z.mod_pos_bound 1000 speed).
  assert (Hq : 0 <= 1000 / speed) by (apply Z.div_pos; lia).
  assert (Hup : 1000 / speed <= 1000) by (apply Z.div_le_upper_bound; nia).
  split; [lia|]. split.
  - intros H33. assert (30 <= 1000 / speed) by (apply Z.div_le_lower_bound; lia).
    rewrite Z.max_r by lia. nia.
  - intros H34. assert (1000 / speed < 30) by (apply Z.div_lt_upper_bound; lia).
    lia.
Qed.

Lemma ms_bounds_witness :
  exists m,
    ms 10 = Some m /\
    30 <= m <= 1000 /\
    (10 <= 33 -> m * 10 <= 1000 < (m + 1) * 10) /\
    (34 <= 10 -> m = 30).
Proof. apply (ms_bounds 10). lia. Defined.

(** ** The keys of the occupied set, as its user sees them *)

(** X18. The set of keys built from a snake answers [has] for the key of a
    cell exactly when the cell is one of the snake's: two cells with
    integer or [NaN] coordinates never share a key. *)
Theorem occupied_has (body : list Point.t) (p q : Point.t) :
  (point_key p ∈ occupied body <-> p ∈ body) /\
  (point_key p = point_key q <-> p = q).
Proof.
  split; [apply elem_of_occupied|].
  split; [apply point_key_inj|by intros ->].
Qed.


(** ** How the body moves *)

Lemma lookup_removelast {A} (l : list A) (i : nat) :
  (S i < length l)%nat -> removelast l !! i = l !! i.
Proof.
  revert i. induction l as [|a [|b l] IH]; intros i Hi; [done|simpl in Hi; lia|].
  rewrite removelast_cons_cons. destruct i as [|i]; [done|].
  simpl in *. apply IH. simpl. lia.
Qed.

(** X20. When [step] moves an active snake on, the new head is the
    candidate head and every other cell takes the place of the cell that
    was ahead of it; the direction is not touched. *)
Theorem body_follows_head (config : GameConfig) (r : random) (state state' : GameState)
    (head : Point.t) (rest : list Point.t) :
  isGameOver state = false ->
  snake state = head :: rest ->
  step config r state = Some state' ->
  isGameOver state' = false ->
  snake state' !! 0%nat = Some (candidate config (direction state) head) /\
  (forall i : nat, (S i < length (snake state'))%nat ->
     snake state' !! S i = snake state !! i) /\
  direction state' = direction state.
Proof.
  intros Hact Hsnake Hstep Hon.
  rewrite (step_active config r state head rest Hact Hsnake) in Hstep. cbv zeta in Hstep.
  destruct (hits_wall config _ || bites config state head).
  { injection Hstep as <-. done. }
  injection Hstep as <-. rewrite Hsnake.
  destruct (willEat config state head); cbn [snake direction].
  - done.
  - split; [done|]. split; [|done].
    intros i Hi. cbn [length] in Hi. rewrite length_removelast_cons in Hi.
    change ((?a :: ?l) !! S i) with (l !! i).
    apply lookup_removelast. cbn [length]. lia.
Qed.

Lemma body_follows_head_witness :
  exists state',
    step open_board middle_draw chasing_tail = Some state' /\
    snake state' !! 0%nat
      = Some (candidate open_board (direction chasing_tail) (Point.mk (Num 0) (Num 0))) /\
    (forall i : nat, (S i < length (snake state'))%nat ->
       snake state' !! S i = snake chasing_tail !! i) /\
    direction state' = direction chasing_tail.
Proof.
  eexists. split; [reflexivity|].
  apply (body_follows_head open_board middle_draw chasing_tail _
           (Point.mk (Num 0) (Num 0))
           [Point.mk (Num 1) (Num 0); Point.mk (Num 1) (Num 1); Point.mk (Num 0) (Num 1)]);
    reflexivity.
Defined.
